(** * cachestore: an in-process TTL key/value cache with tag invalidation

    A shallow embedding of the package [cachestore] (file [cachestore.go],
    and the second, older file of the repository, embedded in
    [Module part_000]) and the proofs of its specification.

    The package keeps two package-level variables, the [disabled] flag and
    the [store] map, and reads the wall clock through [time.Now].  They are
    the fields of [World]; every Go function is a computation in the monad
    [M], which threads the world and can panic. *)

From Stdlib Require Import ZArith Lia.
From stdpp Require Import base gmap strings list fin_maps.

(** ** Package [time] *)

(** A [time.Time] is an instant, counted in nanoseconds from the zero
    instant (January 1, year 1, 00:00:00 UTC); a [time.Duration] is a count
    of nanoseconds. *)
Definition Time := Z.
Definition Duration := Z.

Definition IsZero (t : Time) : bool := (t =? 0)%Z.
Definition After (t u : Time) : bool := (u <? t)%Z.
Definition Add (t : Time) (d : Duration) : Time := (t + d)%Z.

(** ** Values of type [any] *)

(** An interface value is nil or carries a dynamic type and a payload.  A
    type argument [T] is known by the dynamic types a type assertion
    [x.(T)] accepts (one type for a concrete [T], the implementing types
    for an interface [T]) and by its zero value [*new(T)]. *)
Inductive any (Payload : Type) :=
| nil_any
| dyn (ty : string) (payload : Payload).
Arguments nil_any {Payload}.
Arguments dyn {Payload} ty payload.

Record TypeArg (Payload : Type) := {
  accepts : string -> bool;
  zero : any Payload
}.
Arguments accepts {Payload} _ _.
Arguments zero {Payload} _.

(** [x.(T)] in its single-value form: nil and a dynamic type outside [T]
    make it panic. *)
Definition type_assertion {Payload} (T : TypeArg Payload) (x : any Payload)
  : option (any Payload) :=
  match x with
  | nil_any => None
  | dyn ty _ => if accepts T ty then Some x else None
  end.

(** ** Items and options *)

Record item (Payload : Type) := {
  tag : string;
  data : any Payload;
  createdAt : Time;
  expiresAt : Time
}.
Arguments tag {Payload} _.
Arguments data {Payload} _.
Arguments createdAt {Payload} _.
Arguments expiresAt {Payload} _.

Record SetOptions := {
  Tag : string;
  TTL : Duration
}.

(** ** The world and the monad *)

(** [disabled] is the [uint32] flag, [store] the [sync.Map] (it only ever
    holds [*item], and an item is never written to after [Set] has built
    it, so the map holds items by value).  [clock] is the sequence of
    readings [time.Now] returns and [reads] the number of readings taken so
    far.  [gc_runs] is a ghost counter of the calls of [GC]. *)
Record World (Payload : Type) := {
  disabled : Z;
  store : gmap string (item Payload);
  clock : nat -> Time;
  reads : nat;
  gc_runs : nat
}.
Arguments disabled {Payload} _.
Arguments store {Payload} _.
Arguments clock {Payload} _ _.
Arguments reads {Payload} _.
Arguments gc_runs {Payload} _.

Inductive Res (Payload A : Type) :=
| Ok (a : A) (w : World Payload)
| Panic (msg : string).
Arguments Ok {Payload A} a w.
Arguments Panic {Payload A} msg.

Definition M (Payload A : Type) := World Payload -> Res Payload A.

#[global] Instance M_ret {Payload} : MRet (M Payload) :=
  fun A a w => Ok a w.
#[global] Instance M_bind {Payload} : MBind (M Payload) :=
  fun A B f m w =>
    match m w with
    | Ok a w' => f a w'
    | Panic msg => Panic msg
    end.

Definition panic {Payload A} (msg : string) : M Payload A :=
  fun _ => Panic msg.

Section Cachestore.
Context {Payload : Type}.

#[local] Abbreviation any := (any Payload).
#[local] Abbreviation item := (item Payload).
#[local] Abbreviation World := (World Payload).
#[local] Abbreviation TypeArg := (TypeArg Payload).
#[local] Abbreviation M := (M Payload).

(** *** Primitives on the world *)

Definition time_Now : M Time := fun w =>
  Ok (clock w (reads w))
     {| disabled := disabled w; store := store w; clock := clock w;
        reads := S (reads w); gc_runs := gc_runs w |}.

Definition atomic_StoreUint32 (v : Z) : M unit := fun w =>
  Ok tt {| disabled := v; store := store w; clock := clock w;
           reads := reads w; gc_runs := gc_runs w |}.

Definition atomic_LoadUint32 : M Z := fun w => Ok (disabled w) w.

Definition set_store (s : gmap string item) : M unit := fun w =>
  Ok tt {| disabled := disabled w; store := s; clock := clock w;
           reads := reads w; gc_runs := gc_runs w |}.

Definition store_Load (key : string) : M (option item) := fun w =>
  Ok (store w !! key) w.

Definition store_Store (key : string) (it : item) : M unit := fun w =>
  set_store (<[key := it]> (store w)) w.

Definition store_Delete (key : string) : M unit := fun w =>
  set_store (delete key (store w)) w.

(** [sync.Map.Range]: the callback is run on every entry until it returns
    false.  The callbacks of this package delete at most the entry they
    are visiting, so the entries visited are those of the map when the
    range starts. *)
Fixpoint range_entries (f : string -> item -> M bool)
    (l : list (string * item)) : M unit :=
  match l with
  | [] => mret tt
  | (k, v) :: l' =>
      continue ← f k v;
      if continue : bool then range_entries f l' else mret tt
  end.

Definition store_Range (f : string -> item -> M bool) : M unit := fun w =>
  range_entries f (map_to_list (store w)) w.

Definition count_gc : M unit := fun w =>
  Ok tt {| disabled := disabled w; store := store w; clock := clock w;
           reads := reads w; gc_runs := S (gc_runs w) |}.

(** *** cachestore.go *)

Definition SetDisable (value : bool) : M unit :=
  if value then atomic_StoreUint32 1 else atomic_StoreUint32 0.

Definition isDisabled : M bool :=
  v ← atomic_LoadUint32; mret (v =? 1)%Z.

Definition Expired (it : item) : M bool :=
  if IsZero (expiresAt it) then mret false
  else now ← time_Now; mret (After now (expiresAt it)).

Definition CreateAfter (it : item) (t : Time) : bool :=
  After (createdAt it) t.

(** [Set]; the name is taken in Rocq. *)
Definition Set_ (key : string) (value : any) (opt : option SetOptions)
  : M unit :=
  d ← isDisabled;
  if d : bool then mret tt
  else
    now ← time_Now;
    let it := {| tag := ""; data := value; createdAt := now;
                 expiresAt := 0%Z |} in
    let it :=
      match opt with
      | Some o => {| tag := Tag o; data := data it;
                     createdAt := createdAt it;
                     expiresAt := Add (createdAt it) (TTL o) |}
      | None => it
      end in
    store_Store key it.

Definition assert_T (T : TypeArg) (x : any) : M any :=
  match type_assertion T x with
  | Some v => mret v
  | None => panic "interface conversion"
  end.

Definition Get (T : TypeArg) (key : string) : M (any * bool) :=
  d ← isDisabled;
  if d : bool then mret (zero T, false)
  else
    v ← store_Load key;
    match v with
    | None => mret (zero T, false)
    | Some it =>
        e ← Expired it;
        if e : bool then mret (zero T, false)
        else x ← assert_T T (data it); mret (x, true)
    end.

Definition GetStale (T : TypeArg) (key : string) : M (any * bool) :=
  d ← isDisabled;
  if d : bool then mret (zero T, false)
  else
    v ← store_Load key;
    match v with
    | None => mret (zero T, false)
    | Some it => x ← assert_T T (data it); mret (x, true)
    end.

Definition Delete (key : string) : M unit := store_Delete key.

Definition DeleteTag (tg : string) : M unit :=
  t ← time_Now;
  store_Range (fun key it =>
    if CreateAfter it t then mret true
    else if decide (tag it = tg) then store_Delete key;; mret true
    else mret true).

Definition Clear : M unit :=
  t ← time_Now;
  store_Range (fun key it =>
    if CreateAfter it t then mret true
    else store_Delete key;; mret true).

Definition GC : M unit :=
  count_gc;;
  store_Range (fun key it =>
    e ← Expired it;
    if e : bool then store_Delete key;; mret true
    else mret true).

(** [RunGCInterval]: the [select] of the loop is resolved by the
    environment; [evs] is the sequence of the cases it takes.  When [evs]
    runs out the loop is still waiting.  The ticker itself ([NewTicker],
    [Stop]) leaves the world as it is. *)
Inductive Event := ctx_Done | ticker_C.
Inductive Status := Returned | Waiting.

Fixpoint sweep (evs : list Event) : M Status :=
  match evs with
  | [] => mret Waiting
  | ctx_Done :: _ => mret Returned
  | ticker_C :: evs' => GC;; sweep evs'
  end.

Definition RunGCInterval (d : Duration) (evs : list Event) : M Status :=
  if (d <=? 0)%Z then mret Returned
  else sweep evs.

End Cachestore.

(** ** The second file of the repository

    An earlier state of the package, without the [disabled] flag, with an
    untyped [Get] and without [GetStale] and [Clear]. *)
Module part_000.
Section Cachestore.
Context {Payload : Type}.

#[local] Abbreviation any := (any Payload).
#[local] Abbreviation item := (item Payload).
#[local] Abbreviation M := (M Payload).

Definition Expired (it : item) : M bool :=
  if IsZero (expiresAt it) then mret false
  else now ← time_Now; mret (After now (expiresAt it)).

Definition CreateAfter (it : item) (t : Time) : bool :=
  After (createdAt it) t.

Definition Set_ (key : string) (value : any) (opt : option SetOptions)
  : M unit :=
  now ← time_Now;
  let it := {| tag := ""; data := value; createdAt := now;
               expiresAt := 0%Z |} in
  let it :=
    match opt with
    | Some o => {| tag := Tag o; data := data it;
                   createdAt := createdAt it;
                   expiresAt := Add (createdAt it) (TTL o) |}
    | None => it
    end in
  store_Store key it.

Definition Get (key : string) : M (any * bool) :=
  v ← store_Load key;
  match v with
  | None => mret (nil_any, false)
  | Some it =>
      e ← Expired it;
      if e : bool then mret (nil_any, false)
      else mret (data it, true)
  end.

Definition Delete (key : string) : M unit := store_Delete key.

Definition DeleteTag (tg : string) : M unit :=
  t ← time_Now;
  store_Range (fun key it =>
    if negb (CreateAfter it t) then mret true
    else if decide (tag it = tg) then store_Delete key;; mret true
    else mret true).

Definition GC : M unit :=
  count_gc;;
  store_Range (fun key it =>
    e ← Expired it;
    if e : bool then store_Delete key;; mret true
    else mret true).

Fixpoint sweep (evs : list Event) : M Status :=
  match evs with
  | [] => mret Waiting
  | ctx_Done :: _ => mret Returned
  | ticker_C :: evs' => GC;; sweep evs'
  end.

Definition RunGCInterval (d : Duration) (evs : list Event) : M Status :=
  if (d <=? 0)%Z then mret Returned
  else sweep evs.

End Cachestore.
End part_000.

(** ** A range among other goroutines

    [sync.Map.Range] visits the keys of the map; at each key it loads the
    value the key holds at that moment, skips the key when it holds none,
    and passes key and value to the callback.  Between that load and what
    the callback does, another goroutine can run: [env] is what it runs. *)
Section Interleaving.
Context {Payload : Type}.

#[local] Abbreviation item := (item Payload).
#[local] Abbreviation M := (M Payload).

Fixpoint range_keys_amid (env : M unit) (f : string -> item -> M bool)
    (keys : list string) : M unit :=
  match keys with
  | [] => mret tt
  | k :: keys' =>
      v ← store_Load k;
      match v with
      | None => range_keys_amid env f keys'
      | Some it =>
          env;;
          continue ← f k it;
          if continue : bool then range_keys_amid env f keys' else mret tt
      end
  end.

Definition store_Range_amid (env : M unit)
    (f : string -> item -> M bool) : M unit := fun w =>
  range_keys_amid env f (map_to_list (store w)).*1 w.

(** [Clear], its range run among the steps [env] of another goroutine. *)
Definition Clear_amid (env : M unit) : M unit :=
  t ← time_Now;
  store_Range_amid env (fun key it =>
    if CreateAfter it t then mret true
    else store_Delete key;; mret true).

End Interleaving.

(** ** Notions the statements use *)

Section Notions.
Context {Payload : Type}.

#[local] Abbreviation item := (item Payload).
#[local] Abbreviation World := (World Payload).
#[local] Abbreviation M := (M Payload).

(** What a caller sees of a run: the value returned, or nothing when the
    call panicked. *)
Definition outcome {A} (r : Res Payload A) : option A :=
  match r with
  | Ok a _ => Some a
  | Panic _ => None
  end.

Definition panics {A} (r : Res Payload A) : Prop :=
  exists msg, r = Panic msg.

(** The expiry predicate of the data model: [expiresAt] is present and in
    the past at the time [t] of the check. *)
Definition expired_at (t : Time) (it : item) : bool :=
  negb (IsZero (expiresAt it)) && After t (expiresAt it).

(** Every reading of the clock from now on is [t]. *)
Definition frozen (t : Time) (w : World) : Prop :=
  forall n, reads w <= n -> clock w n = t.

(** The next reading of the clock. *)
Definition now (w : World) : Time := clock w (reads w).

(** The world with the flag replaced. *)
Definition with_disabled (v : Z) (w : World) : World :=
  {| disabled := v; store := store w; clock := clock w;
     reads := reads w; gc_runs := gc_runs w |}.

Definition map_world {A} (g : World -> World) (r : Res Payload A)
  : Res Payload A :=
  match r with
  | Ok a w => Ok a (g w)
  | Panic msg => Panic msg
  end.

(** The store a range leaves when its callback deletes the entries that
    satisfy [p] and keeps the others. *)
Fixpoint delete_where (p : item -> bool) (l : list (string * item))
    (s : gmap string item) : gmap string item :=
  match l with
  | [] => s
  | (k, it) :: l' => delete_where p l' (if p it then delete k s else s)
  end.

(** [w'] is [w] after some readings of the clock, with the store [s]. *)
Definition moved (w w' : World) (s : gmap string item) : Prop :=
  disabled w' = disabled w /\ clock w' = clock w /\
  gc_runs w' = gc_runs w /\ reads w <= reads w' /\ store w' = s.

(** A callback that, on worlds satisfying [I], deletes the entry it visits
    when [p] holds of it, keeps it otherwise, and always continues. *)
Definition deletes_when (I : World -> Prop) (p : item -> bool)
    (f : string -> item -> M bool) : Prop :=
  forall k it w, I w ->
    exists w', f k it w = Ok true w' /\ I w' /\
               moved w w' (if p it then delete k (store w) else store w).

(** A computation that succeeds and leaves the flag, the clock and the
    ghost counter as they are. *)
Definition quiet {A} (m : M A) : Prop :=
  forall w, exists a w', m w = Ok a w' /\ disabled w' = disabled w /\
                         clock w' = clock w /\ gc_runs w' = gc_runs w.

(** A computation that does not consult the flag: it runs the same
    whatever the flag is, and hands the flag on. *)
Definition flag_blind {A} (m : M A) : Prop :=
  forall v w, m (with_disabled v w) = map_world (with_disabled v) (m w).

(** The mapping a run ends with. *)
Definition final_store {A} (r : Res Payload A) : option (gmap string item) :=
  match r with
  | Ok _ w => Some (store w)
  | Panic _ => None
  end.

(** The item [Set] builds from a value, its options and the reading of
    the clock it takes. *)
Definition new_item (v : any Payload) (opt : option SetOptions) (t : Time)
  : item :=
  {| tag := match opt with Some o => Tag o | None => "" end;
     data := v;
     createdAt := t;
     expiresAt := match opt with
                  | Some o => Add t (TTL o)
                  | None => 0%Z
                  end |}.

(** The tag an item set with these options carries. *)
Definition tag_of (opt : option SetOptions) : string :=
  match opt with Some o => Tag o | None => "" end.

(** The ticks the loop of [RunGCInterval] serves before it returns. *)
Fixpoint ticks_served (evs : list Event) : nat :=
  match evs with
  | [] => 0
  | ctx_Done :: _ => 0
  | ticker_C :: evs' => S (ticks_served evs')
  end.

End Notions.

(** ** Concrete worlds for the examples *)

Definition T_int : TypeArg Z :=
  {| accepts := String.eqb "int"; zero := dyn "int" 0%Z |}.

Definition T_string : TypeArg Z :=
  {| accepts := String.eqb "string"; zero := dyn "string" 0%Z |}.

(** An enabled, empty store whose clock reads 100, 110, 120, ... *)
Definition w_start : World Z :=
  {| disabled := 0; store := ∅;
     clock := fun n => (100 + 10 * Z.of_nat n)%Z;
     reads := 0; gc_runs := 0 |}.

(** A store with one entry and a clock stopped at [t]. *)
Definition w_one (flag : Z) (k : string) (it : item Z) (t : Time) : World Z :=
  {| disabled := flag; store := {[ k := it ]};
     clock := fun _ => t; reads := 0; gc_runs := 0 |}.

(** An entry holding a string, with no expiry, and one holding an int
    that expired at 5. *)
Definition it_string : item Z :=
  {| tag := "t"; data := dyn "string" 7%Z; createdAt := 5%Z;
     expiresAt := 0%Z |}.

Definition it_int_5 : item Z :=
  {| tag := "t"; data := dyn "int" 7%Z; createdAt := 3%Z;
     expiresAt := 5%Z |}.

(** An entry created at 20, after the clock of the examples. *)
Definition it_late : item Z :=
  {| tag := "t"; data := dyn "int" 9%Z; createdAt := 20%Z;
     expiresAt := 0%Z |}.

Definition opt_t (ttl : Duration) : option SetOptions :=
  Some {| Tag := "t"; TTL := ttl |}.


(** The type argument [any]: every dynamic type matches, the zero value
    is nil. *)
Definition T_any : TypeArg Z :=
  {| accepts := fun _ => true; zero := nil_any |}.

(** An entry created at 50 and a store holding it, with the clock of
    [w_start]. *)
Definition it_old : item Z :=
  {| tag := "t"; data := dyn "int" 1%Z; createdAt := 50%Z;
     expiresAt := 0%Z |}.

Definition w_old : World Z :=
  {| disabled := 0; store := {[ "k" := it_old ]};
     clock := fun n => (100 + 10 * Z.of_nat n)%Z;
     reads := 0; gc_runs := 0 |}.

(** The worlds of the examples: the clock is stopped at 10. *)
Definition w_mismatch : World Z := w_one 0 "k" it_string 10%Z.
Definition w_expired : World Z := w_one 0 "k" it_int_5 10%Z.
Definition w_disabled : World Z := w_one 1 "k" it_int_5 10%Z.
Definition w_late : World Z := w_one 0 "k" it_late 10%Z.

(** ** Running the primitives *)

Ltac run_m :=
  unfold mbind, M_bind, mret, M_ret, panic, set_store; cbn.

(** States that the callback of the range in the goal deletes the entries
    satisfying [p]; the first goal is the step on one entry. *)
Ltac range_deletes I p :=
  lazymatch goal with
  | |- context [store_Range ?f ?w1] =>
      let Hd := fresh "Hd" in
      assert (Hd : deletes_when I p f);
      [ intros k it w0 HI0 | ]
  end.

#[local] Open Scope Z_scope.

Section Runs.
Context {Payload : Type}.

#[local] Abbreviation item := (item Payload).
#[local] Abbreviation World := (World Payload).
#[local] Abbreviation M := (M Payload).

Lemma moved_refl (w : World) : moved w w (store w).
Proof. unfold moved. auto. Qed.

Lemma moved_trans (w1 w2 w3 : World) s2 s3 :
  moved w1 w2 s2 -> moved w2 w3 s3 -> moved w1 w3 s3.
Proof.
  unfold moved. intros (Hd1 & Hc1 & Hg1 & Hr1 & _) (Hd2 & Hc2 & Hg2 & Hr2 & Hs).
  repeat split; try congruence. lia.
Qed.

Lemma frozen_moved t (w w' : World) s :
  frozen t w -> moved w w' s -> frozen t w'.
Proof.
  intros Hf (_ & Hc & _ & Hr & _) n Hn. rewrite Hc. apply Hf. lia.
Qed.

Lemma frozen_now t (w : World) : frozen t w -> now w = t.
Proof. intros Hf. apply Hf. lia. Qed.

(** [Expired] answers the expiry predicate at the time it reads, which is
    the next reading of the clock. *)
Lemma Expired_run (it : item) (w : World) :
  exists w', Expired it w = Ok (expired_at (now w) it) w' /\
             moved w w' (store w).
Proof.
  unfold Expired, expired_at, now.
  destruct (IsZero (expiresAt it)); run_m.
  - exists w. split; [reflexivity | apply moved_refl].
  - eexists. split; [reflexivity |]. unfold moved; cbn.
    repeat split; auto.
Qed.

Lemma store_Delete_run k (w : World) :
  exists w', store_Delete k w = Ok tt w' /\ moved w w' (delete k (store w)).
Proof.
  unfold store_Delete, set_store. eexists. split; [reflexivity |].
  unfold moved; cbn. auto.
Qed.

(** *** Ranges that delete *)

Lemma range_entries_deletes (I : World -> Prop) p f :
  deletes_when I p f ->
  forall l w, I w ->
    exists w', range_entries f l w = Ok tt w' /\ I w' /\
               moved w w' (delete_where p l (store w)).
Proof.
  intros Hf l. induction l as [| [k it] l IH]; intros w HI.
  - exists w. cbn. split; [reflexivity |]. split; [assumption |].
    apply moved_refl.
  - destruct (Hf k it w HI) as (w1 & Hrun & HI1 & Hm1).
    destruct (IH w1 HI1) as (w2 & Hrun2 & HI2 & Hm2).
    exists w2. cbn [range_entries]. unfold mbind, M_bind. rewrite Hrun.
    split; [exact Hrun2 |]. split; [assumption |].
    cbn [delete_where].
    assert (Hs : store w1 = if p it then delete k (store w) else store w)
      by apply Hm1.
    rewrite <- Hs. eapply moved_trans; eassumption.
Qed.

Lemma delete_where_None p l (s : gmap string item) k :
  s !! k = None -> delete_where p l s !! k = None.
Proof.
  revert s. induction l as [| [k' it'] l IH]; intros s Hs; cbn; [assumption |].
  apply IH. destruct (p it'); [| assumption].
  rewrite lookup_delete. case_decide; [reflexivity | assumption].
Qed.

Lemma delete_where_hit p l (s : gmap string item) k it :
  (k, it) ∈ l -> p it = true -> delete_where p l s !! k = None.
Proof.
  revert s. induction l as [| [k' it'] l IH]; intros s Hin Hp; cbn.
  - inversion Hin.
  - apply elem_of_cons in Hin as [Heq | Hin].
    + injection Heq as <- <-. rewrite Hp. apply delete_where_None.
      apply lookup_delete_eq.
    + apply IH; assumption.
Qed.

Lemma delete_where_miss p l (s : gmap string item) k :
  (forall it, (k, it) ∈ l -> p it = false) ->
  delete_where p l s !! k = s !! k.
Proof.
  revert s. induction l as [| [k' it'] l IH]; intros s Hall; cbn;
    [reflexivity |].
  rewrite IH by (intros it Hin; apply Hall; right; assumption).
  destruct (p it') eqn:Hp; [| reflexivity].
  destruct (decide (k' = k)) as [-> | Hne].
  - rewrite (Hall it') in Hp by left. discriminate.
  - apply lookup_delete_ne. assumption.
Qed.

(** Over the entries of the store itself, the range keeps exactly the
    entries [p] rejects. *)
Lemma lookup_delete_where p (s : gmap string item) k :
  delete_where p (map_to_list s) s !! k =
  match s !! k with
  | Some it => if p it then None else Some it
  | None => None
  end.
Proof.
  destruct (s !! k) as [it |] eqn:Hk.
  - destruct (p it) eqn:Hp.
    + apply (delete_where_hit p _ s k it); [| assumption].
      apply elem_of_map_to_list. assumption.
    + rewrite delete_where_miss; [assumption |].
      intros it' Hin. apply elem_of_map_to_list in Hin.
      rewrite Hk in Hin. injection Hin as <-. assumption.
  - apply delete_where_None. assumption.
Qed.

Lemma store_Range_deletes (I : World -> Prop) p f (w : World) :
  deletes_when I p f -> I w ->
  exists w', store_Range f w = Ok tt w' /\ I w' /\
    moved w w' (delete_where p (map_to_list (store w)) (store w)).
Proof.
  intros Hf HI. unfold store_Range. apply range_entries_deletes; assumption.
Qed.

(** *** The operations that remove entries *)

Lemma time_Now_run (w : World) :
  exists w', time_Now w = Ok (now w) w' /\ moved w w' (store w) /\
             reads w' = S (reads w).
Proof.
  unfold time_Now, now. eexists. split; [reflexivity |].
  unfold moved; cbn. repeat split; auto.
Qed.

Lemma DeleteTag_run tg (w : World) :
  exists w', DeleteTag tg w = Ok tt w' /\
    moved w w'
      (delete_where
         (fun it => negb (CreateAfter it (now w)) && bool_decide (tag it = tg))
         (map_to_list (store w)) (store w)) /\
    reads w' = S (reads w).
Proof.
  destruct (time_Now_run w) as (w1 & Hnow & Hm1 & Hr1).
  unfold DeleteTag, mbind at 1, M_bind at 1. rewrite Hnow.
  range_deletes (fun w0 : World => reads w0 = S (reads w))
    (fun it : item =>
       negb (CreateAfter it (now w)) && bool_decide (tag it = tg)).
  { destruct (CreateAfter it (now w)); cbn.
    - exists w0. run_m. split; [reflexivity |]. split; [exact HI0 |].
      apply moved_refl.
    - destruct (decide (tag it = tg)) as [Ht | Ht].
      + rewrite bool_decide_eq_true_2 by assumption.
        eexists. run_m. split; [reflexivity |]. split; [exact HI0 |].
        unfold moved; cbn. auto.
      + rewrite bool_decide_eq_false_2 by assumption.
        exists w0. run_m. split; [reflexivity |]. split; [exact HI0 |].
        apply moved_refl. }
  destruct (store_Range_deletes _ _ _ w1 Hd Hr1) as (w' & Hrun & Hr & Hm2).
  exists w'. split; [exact Hrun |]. split; [| exact Hr].
  assert (Hs : store w1 = store w) by apply Hm1.
  rewrite Hs in Hm2. eapply moved_trans; eassumption.
Qed.

Lemma Clear_run (w : World) :
  exists w', Clear w = Ok tt w' /\
    moved w w'
      (delete_where (fun it => negb (CreateAfter it (now w)))
         (map_to_list (store w)) (store w)) /\
    reads w' = S (reads w).
Proof.
  destruct (time_Now_run w) as (w1 & Hnow & Hm1 & Hr1).
  unfold Clear, mbind at 1, M_bind at 1. rewrite Hnow.
  range_deletes (fun w0 : World => reads w0 = S (reads w))
    (fun it : item => negb (CreateAfter it (now w))).
  { destruct (CreateAfter it (now w)); cbn.
    - exists w0. run_m. split; [reflexivity |]. split; [exact HI0 |].
      apply moved_refl.
    - eexists. run_m. split; [reflexivity |]. split; [exact HI0 |].
      unfold moved; cbn. auto. }
  destruct (store_Range_deletes _ _ _ w1 Hd Hr1) as (w' & Hrun & Hr & Hm2).
  exists w'. split; [exact Hrun |]. split; [| exact Hr].
  assert (Hs : store w1 = store w) by apply Hm1.
  rewrite Hs in Hm2. eapply moved_trans; eassumption.
Qed.

(** The callback of [GC], at a stopped clock. *)
Lemma GC_callback_deletes t :
  deletes_when (frozen t) (expired_at t)
    (fun key (it : item) =>
       e ← Expired it;
       if e : bool then store_Delete key;; mret true else mret true).
Proof.
  intros k it w Hf.
  destruct (Expired_run it w) as (w1 & Hrun & Hm1).
  rewrite (frozen_now t w Hf) in Hrun.
  assert (Hf1 : frozen t w1) by (eapply frozen_moved; eassumption).
  assert (Hs : store w1 = store w) by apply Hm1.
  unfold mbind at 1, M_bind at 1. rewrite Hrun.
  destruct (expired_at t it).
  - destruct (store_Delete_run k w1) as (w2 & Hdel & Hm2).
    exists w2. unfold mbind, M_bind. rewrite Hdel. cbn.
    split; [reflexivity |]. rewrite Hs in Hm2.
    split; [eapply frozen_moved; eassumption |].
    eapply moved_trans; eassumption.
  - exists w1. split; [reflexivity |]. split; [assumption |].
    rewrite <- Hs. rewrite <- Hs in Hm1. exact Hm1.
Qed.

(** [GC] at a stopped clock: one more run is counted and the expired
    entries are gone. *)
Lemma GC_run t (w : World) :
  frozen t w ->
  exists w', GC w = Ok tt w' /\ frozen t w' /\
    disabled w' = disabled w /\ clock w' = clock w /\
    gc_runs w' = S (gc_runs w) /\
    store w' = delete_where (expired_at t) (map_to_list (store w)) (store w).
Proof.
  intros Hf. unfold GC, mbind at 1, M_bind at 1. cbn [count_gc].
  set (w1 := {| disabled := disabled w; store := store w; clock := clock w;
                reads := reads w; gc_runs := S (gc_runs w) |}).
  assert (Hf1 : frozen t w1) by exact Hf.
  destruct (store_Range_deletes _ _ _ w1 (GC_callback_deletes t) Hf1)
    as (w' & Hrun & Hf' & Hd & Hc & Hg & _ & Hs).
  exists w'. split; [exact Hrun |]. auto.
Qed.

(** *** What the reads return *)

Lemma Get_outcome (T : TypeArg Payload) k (w : World) :
  outcome (Get T k w) =
  if disabled w =? 1 then Some (zero T, false)
  else match store w !! k with
       | None => Some (zero T, false)
       | Some it =>
           if expired_at (now w) it then Some (zero T, false)
           else (fun x => (x, true)) <$> type_assertion T (data it)
       end.
Proof.
  unfold Get, isDisabled, atomic_LoadUint32, store_Load, assert_T. run_m.
  destruct (disabled w =? 1); [reflexivity |]. cbn.
  destruct (store w !! k) as [it |]; [| reflexivity].
  destruct (Expired_run it w) as (w1 & -> & _).
  destruct (expired_at (now w) it); [reflexivity |].
  destruct (type_assertion T (data it)); reflexivity.
Qed.

Lemma GetStale_outcome (T : TypeArg Payload) k (w : World) :
  outcome (GetStale T k w) =
  if disabled w =? 1 then Some (zero T, false)
  else match store w !! k with
       | None => Some (zero T, false)
       | Some it => (fun x => (x, true)) <$> type_assertion T (data it)
       end.
Proof.
  unfold GetStale, isDisabled, atomic_LoadUint32, store_Load, assert_T. run_m.
  destruct (disabled w =? 1); [reflexivity |]. cbn.
  destruct (store w !! k) as [it |]; [| reflexivity].
  destruct (type_assertion T (data it)); reflexivity.
Qed.

(** The reads leave the mapping and the flag as they are. *)
Lemma Get_pure (T : TypeArg Payload) k (w : World) r w' :
  Get T k w = Ok r w' -> store w' = store w /\ disabled w' = disabled w.
Proof.
  unfold Get, isDisabled, atomic_LoadUint32, store_Load, assert_T. run_m.
  destruct (disabled w =? 1); cbn; [intros [= _ <-]; auto |].
  destruct (store w !! k) as [it |]; [| intros [= _ <-]; auto].
  destruct (Expired_run it w) as (w1 & -> & Hd & _ & _ & _ & Hs).
  destruct (expired_at (now w) it); [intros [= _ <-]; auto |].
  destruct (type_assertion T (data it)); cbn; [| discriminate].
  intros [= _ <-]; auto.
Qed.

Lemma GetStale_pure (T : TypeArg Payload) k (w : World) r w' :
  GetStale T k w = Ok r w' -> w' = w.
Proof.
  unfold GetStale, isDisabled, atomic_LoadUint32, store_Load, assert_T. run_m.
  destruct (disabled w =? 1); cbn; [intros [= _ <-]; auto |].
  destruct (store w !! k) as [it |]; [| intros [= _ <-]; auto].
  destruct (type_assertion T (data it)); cbn; [| discriminate].
  intros [= _ <-]; auto.
Qed.

End Runs.

(** ** The specification *)

Section Spec.
Context {Payload : Type}.

#[local] Abbreviation any := (any Payload).
#[local] Abbreviation item := (item Payload).
#[local] Abbreviation World := (World Payload).
#[local] Abbreviation TypeArg := (TypeArg Payload).

(** *** Tag invalidation *)

(** X14: [DeleteTag] of cachestore.go: with [t0] the reading of the clock
    it starts with, it removes exactly the entries whose tag is the given one
    and whose [createdAt] is not after [t0]; every other entry, and so
    every entry created after [t0], stays as it is. *)
Theorem DeleteTag_deletes_exactly (tg : string) (w : World) :
  exists w', DeleteTag tg w = Ok tt w' /\
    disabled w' = disabled w /\
    forall k,
      store w' !! k =
      match store w !! k with
      | Some it =>
          if bool_decide (tag it = tg /\ createdAt it <= now w)
          then None else Some it
      | None => None
      end.
Proof.
  destruct (DeleteTag_run tg w) as (w' & Hrun & (Hd & _ & _ & _ & Hs) & _).
  exists w'. split; [exact Hrun |]. split; [exact Hd |].
  intros k. rewrite Hs, lookup_delete_where.
  destruct (store w !! k) as [it |]; [| reflexivity].
  unfold CreateAfter, After.
  destruct (Z.ltb_spec (now w) (createdAt it)); cbn.
  - rewrite bool_decide_eq_false_2; [reflexivity | lia].
  - destruct (decide (tag it = tg)) as [Ht | Ht].
    + rewrite !bool_decide_eq_true_2; [reflexivity | split | ]; auto.
    + rewrite !bool_decide_eq_false_2; [reflexivity | tauto | assumption].
Qed.

(** [DeleteTag] of the second file tests the guard the other way round:
    it removes the entries of the tag created after [t0] and keeps those
    created at or before [t0]. *)
Lemma part_000_DeleteTag_deletes (tg : string) (w : World) :
  exists w', part_000.DeleteTag tg w = Ok tt w' /\
    forall k,
      store w' !! k =
      match store w !! k with
      | Some it =>
          if bool_decide (tag it = tg /\ now w < createdAt it)
          then None else Some it
      | None => None
      end.
Proof.
  destruct (time_Now_run w) as (w1 & Hnow & Hm1 & _).
  unfold part_000.DeleteTag, mbind at 1, M_bind at 1. rewrite Hnow.
  range_deletes (fun _ : World => True)
    (fun it : item =>
       part_000.CreateAfter it (now w) && bool_decide (tag it = tg)).
  { destruct (part_000.CreateAfter it (now w)); cbn.
    - destruct (decide (tag it = tg)) as [Ht | Ht].
      + rewrite bool_decide_eq_true_2 by assumption.
        eexists. run_m. split; [reflexivity |]. split; [exact I |].
        unfold moved; cbn. auto.
      + rewrite bool_decide_eq_false_2 by assumption.
        exists w0. run_m. split; [reflexivity |]. split; [exact I |].
        apply moved_refl.
    - exists w0. run_m. split; [reflexivity |]. split; [exact I |].
      apply moved_refl. }
  destruct (store_Range_deletes _ _ _ w1 Hd I)
    as (w' & Hrun & _ & _ & _ & _ & _ & Hs).
  exists w'. split; [exact Hrun |].
  assert (Hs1 : store w1 = store w) by apply Hm1.
  intros k. rewrite Hs, Hs1, lookup_delete_where.
  destruct (store w !! k) as [it |]; [| reflexivity].
  unfold part_000.CreateAfter, After.
  destruct (Z.ltb_spec (now w) (createdAt it)); cbn.
  - destruct (decide (tag it = tg)) as [Ht | Ht].
    + rewrite !bool_decide_eq_true_2; [reflexivity | split | ]; auto.
    + rewrite !bool_decide_eq_false_2; [reflexivity | tauto | assumption].
  - rewrite (bool_decide_eq_false_2 (_ /\ _)); [reflexivity | lia].
Qed.

(** *** Typed reads *)

(** C2, as the code has it: when an entry exists under the key and the
    dynamic type of its value does not match [T], both reads return
    [(zero, false)] on a disabled store; on an enabled store [GetStale]
    panics at the type assertion, and [Get] returns [(zero, false)] when
    the entry is expired and panics when it is not. *)
Theorem typed_read_of_mismatch (T : TypeArg) (key : string) (it : item)
    (w : World) :
  store w !! key = Some it ->
  type_assertion T (data it) = None ->
  (disabled w = 1 ->
     Get T key w = Ok (zero T, false) w /\
     GetStale T key w = Ok (zero T, false) w) /\
  (disabled w <> 1 ->
     panics (GetStale T key w) /\
     (expired_at (now w) it = true ->
        outcome (Get T key w) = Some (zero T, false)) /\
     (expired_at (now w) it = false -> panics (Get T key w))).
Proof.
  intros Hk Hty. split.
  - intros Hd. unfold Get, GetStale, isDisabled, atomic_LoadUint32. run_m.
    rewrite Hd. cbn. auto.
  - intros Hd. apply Z.eqb_neq in Hd.
    unfold Get, GetStale, isDisabled, atomic_LoadUint32, store_Load,
      assert_T.
    destruct (Expired_run it w) as (w1 & Hexp & _).
    run_m. rewrite Hd, Hk, Hty, Hexp. cbn. split; [| split].
    + eexists. reflexivity.
    + intros ->. reflexivity.
    + intros ->. eexists. reflexivity.
Qed.

(** *** The switch *)

(** C3: while the flag is set, [Set] changes nothing and [Get] and
    [GetStale] return [(zero, false)] whatever the mapping holds, leaving
    the world as it is; [SetDisable] leaves the mapping alone; and a [Set]
    made between [SetDisable(true)] and [SetDisable(false)] leaves no
    entry, so a key that was absent is still not found. *)
Theorem disabled_store_is_inert (w : World) :
  (disabled w = 1 ->
     (forall k v opt, Set_ k v opt w = Ok tt w) /\
     (forall T k, Get T k w = Ok (zero T, false) w) /\
     (forall T k, GetStale T k w = Ok (zero T, false) w)) /\
  (forall b, exists w',
     SetDisable b w = Ok tt w' /\ store w' = store w /\
     disabled w' = if b then 1 else 0) /\
  (forall k v opt,
     (SetDisable true;; Set_ k v opt;; SetDisable false) w =
     Ok tt (with_disabled 0 w)) /\
  (forall T k v opt,
     store w !! k = None ->
     outcome ((SetDisable true;; Set_ k v opt;; SetDisable false;;
               Get T k) w) = Some (zero T, false)).
Proof.
  split; [| split; [| split]].
  - intros Hd. repeat split; intros.
    + unfold Set_, isDisabled, atomic_LoadUint32. run_m. rewrite Hd.
      reflexivity.
    + unfold Get, isDisabled, atomic_LoadUint32. run_m. rewrite Hd.
      reflexivity.
    + unfold GetStale, isDisabled, atomic_LoadUint32. run_m. rewrite Hd.
      reflexivity.
  - intros b. destruct b; eexists; (split; [reflexivity |]); cbn; auto.
  - intros k v opt. reflexivity.
  - intros T k v opt Hk.
    unfold SetDisable, Set_, Get, isDisabled, atomic_LoadUint32,
      atomic_StoreUint32, store_Load.
    run_m. rewrite Hk. reflexivity.
Qed.

(** *** Expiry *)

(** C4, as the code has it: for an entry whose [expiresAt] is not zero,
    at a check time after [expiresAt], [Get] returns [(zero, false)]; on
    an enabled store [GetStale], at the type of the value, still returns
    the value with [true], and on a disabled store it returns
    [(zero, false)].  An entry whose [expiresAt] is zero is expired at no
    time. *)
Theorem stale_read_after_expiry (T : TypeArg) (key : string) (it : item)
    (w : World) :
  store w !! key = Some it ->
  (expiresAt it <> 0 -> expiresAt it < now w ->
     outcome (Get T key w) = Some (zero T, false) /\
     (disabled w <> 1 -> type_assertion T (data it) = Some (data it) ->
        outcome (GetStale T key w) = Some (data it, true)) /\
     (disabled w = 1 ->
        outcome (GetStale T key w) = Some (zero T, false))) /\
  (expiresAt it = 0 ->
     (forall t, expired_at t it = false) /\
     (forall w0 : World, Expired it w0 = Ok false w0)).
Proof.
  intros Hk. split.
  - intros Hnz Hlt. rewrite Get_outcome, GetStale_outcome, Hk.
    assert (Hexp : expired_at (now w) it = true).
    { unfold expired_at, IsZero, After.
      apply Z.eqb_neq in Hnz. rewrite Hnz. cbn. apply Z.ltb_lt. exact Hlt. }
    rewrite Hexp. split; [| split].
    + destruct (disabled w =? 1); reflexivity.
    + intros Hd Hty. apply Z.eqb_neq in Hd. rewrite Hd, Hty. reflexivity.
    + intros ->. reflexivity.
  - intros Hz. split.
    + intros t. unfold expired_at, IsZero. rewrite Hz. reflexivity.
    + intros w0. unfold Expired, IsZero. rewrite Hz. reflexivity.
Qed.

(** *** Reclamation *)

(** C5: at a stopped clock reading [t], [GC] removes exactly the entries
    expired at [t] and leaves the others as they are; a second [GC] leaves
    the mapping of the first; and [Get] returns for every key what it
    returned before [GC]. *)
Theorem GC_removes_exactly_expired (t : Time) (w : World) :
  frozen t w ->
  exists w1, GC w = Ok tt w1 /\
    (forall k,
       store w1 !! k =
       match store w !! k with
       | Some it => if expired_at t it then None else Some it
       | None => None
       end) /\
    (exists w2, (GC;; GC) w = Ok tt w2 /\ store w2 = store w1) /\
    (forall T k, outcome (Get T k w1) = outcome (Get T k w)).
Proof.
  intros Hf.
  destruct (GC_run t w Hf) as (w1 & Hrun & Hf1 & Hd & Hc & Hg & Hs).
  assert (Hlook : forall k,
            store w1 !! k =
            match store w !! k with
            | Some it => if expired_at t it then None else Some it
            | None => None
            end).
  { intros k. rewrite Hs. apply lookup_delete_where. }
  exists w1. split; [exact Hrun |]. split; [exact Hlook |]. split.
  - destruct (GC_run t w1 Hf1) as (w2 & Hrun2 & _ & _ & _ & _ & Hs2).
    exists w2. unfold mbind, M_bind. rewrite Hrun. split; [exact Hrun2 |].
    apply map_eq. intros k. rewrite Hs2, lookup_delete_where, Hlook.
    destruct (store w !! k) as [it |]; [| reflexivity].
    destruct (expired_at t it) eqn:He; [reflexivity |].
    rewrite He. reflexivity.
  - intros T k. rewrite !Get_outcome, Hd, Hlook.
    rewrite (frozen_now t w Hf), (frozen_now t w1 Hf1).
    destruct (disabled w =? 1); [reflexivity |].
    destruct (store w !! k) as [it |]; [| reflexivity].
    destruct (expired_at t it) eqn:He; [reflexivity |].
    rewrite He. reflexivity.
Qed.

(** *** Clear *)

(** X15: one call of [Clear], no other goroutine running.  With [t0] the
    reading of the clock [Clear] starts with, an entry
    whose [createdAt] is not after [t0] is removed, whatever its tag, and
    [Get] no longer finds its key; an entry whose [createdAt] is after
    [t0] stays as it is, [Get] answers for its key as it would have
    without [Clear], and it finds the value when the store is enabled, the
    entry is not expired and the type matches.  No entry is added. *)
Theorem Clear_removes_older (w : World) :
  exists w', Clear w = Ok tt w' /\
    (forall k it, store w !! k = Some it -> createdAt it <= now w ->
       store w' !! k = None /\
       forall T, outcome (Get T k w') = Some (zero T, false)) /\
    (forall k it, store w !! k = Some it -> now w < createdAt it ->
       store w' !! k = Some it /\
       (forall T, outcome ((Clear;; Get T k) w) =
                  outcome ((time_Now;; Get T k) w)) /\
       (forall T, disabled w <> 1 -> expired_at (now w') it = false ->
                  type_assertion T (data it) = Some (data it) ->
                  outcome (Get T k w') = Some (data it, true))) /\
    (forall k, store w !! k = None -> store w' !! k = None).
Proof.
  destruct (Clear_run w) as (w' & Hrun & (Hd & Hc & _ & _ & Hs) & Hr).
  assert (Hlook : forall k,
            store w' !! k =
            match store w !! k with
            | Some it => if negb (CreateAfter it (now w)) then None
                         else Some it
            | None => None
            end).
  { intros k. rewrite Hs. apply lookup_delete_where. }
  exists w'. split; [exact Hrun |]. split; [| split].
  - intros k it Hk Hle.
    assert (Hnone : store w' !! k = None).
    { rewrite Hlook, Hk. unfold CreateAfter, After.
      destruct (Z.ltb_spec (now w) (createdAt it)); [lia | reflexivity]. }
    split; [exact Hnone |]. intros T. rewrite Get_outcome, Hnone.
    destruct (disabled w' =? 1); reflexivity.
  - intros k it Hk Hlt.
    assert (Hsome : store w' !! k = Some it).
    { rewrite Hlook, Hk. unfold CreateAfter, After.
      destruct (Z.ltb_spec (now w) (createdAt it)); [reflexivity | lia]. }
    split; [exact Hsome |]. split.
    + intros T. destruct (time_Now_run w) as (w1 & Hnow & Hm1 & Hr1).
      unfold mbind, M_bind. rewrite Hrun, Hnow, !Get_outcome.
      destruct Hm1 as (Hd1 & Hc1 & _ & _ & Hs1).
      rewrite Hd, Hd1, Hsome, Hs1, Hk. unfold now.
      rewrite Hc, Hc1, Hr, Hr1. reflexivity.
    + intros T Hen Hexp Hty. apply Z.eqb_neq in Hen.
      rewrite Get_outcome, Hd, Hen, Hsome, Hexp, Hty. reflexivity.
  - intros k Hk. rewrite Hlook, Hk. reflexivity.
Qed.

(** *** The sweep *)

Lemma quiet_ret {A} (a : A) : quiet (mret a : M Payload A).
Proof. intros w. exists a, w. auto. Qed.

Lemma quiet_bind {A B} (m : M Payload A) (f : A -> M Payload B) :
  quiet m -> (forall a, quiet (f a)) -> quiet (m ≫= f).
Proof.
  intros Hm Hf w. destruct (Hm w) as (a & w1 & Hrun & Hd & Hc & Hg).
  destruct (Hf a w1) as (b & w2 & Hrun2 & Hd2 & Hc2 & Hg2).
  exists b, w2. unfold mbind, M_bind. rewrite Hrun.
  split; [exact Hrun2 |]. repeat split; congruence.
Qed.

Lemma quiet_Expired (it : item) : quiet (Expired it).
Proof.
  intros w. destruct (Expired_run it w) as (w1 & Hrun & Hd & Hc & Hg & _).
  eauto 8.
Qed.

Lemma quiet_store_Delete k : quiet (store_Delete (Payload := Payload) k).
Proof.
  intros w. destruct (store_Delete_run k w) as (w1 & Hrun & Hd & Hc & Hg & _).
  eauto 8.
Qed.

Lemma quiet_range_entries (f : string -> item -> M Payload bool) l :
  (forall k it, quiet (f k it)) -> quiet (range_entries f l).
Proof.
  intros Hf. induction l as [| [k it] l IH]; cbn [range_entries].
  - apply quiet_ret.
  - apply quiet_bind; [apply Hf |]. intros [|]; [exact IH | apply quiet_ret].
Qed.

(** [GC] always returns, and counts one run. *)
Lemma GC_counts (w : World) :
  exists w', GC w = Ok tt w' /\ gc_runs w' = S (gc_runs w) /\
             disabled w' = disabled w.
Proof.
  unfold GC, mbind at 1, M_bind at 1. cbn [count_gc].
  match goal with
  | |- context [store_Range ?f ?w1] =>
      destruct (quiet_range_entries f (map_to_list (store w1))) with (w := w1)
        as ([] & w' & Hrun & Hd & _ & Hg)
  end.
  { intros k it. apply quiet_bind; [apply quiet_Expired |].
    intros [|]; [| apply quiet_ret].
    apply quiet_bind; [apply quiet_store_Delete |]. intros _. apply quiet_ret. }
  exists w'. split; [exact Hrun |]. auto.
Qed.

Lemma part_000_GC_eq : part_000.GC (Payload := Payload) = GC.
Proof. reflexivity. Qed.

Lemma part_000_sweep_eq evs :
  part_000.sweep (Payload := Payload) evs = sweep evs.
Proof.
  induction evs as [| [|] evs IH]; cbn; [reflexivity | reflexivity |].
  rewrite IH. reflexivity.
Qed.

Lemma sweep_counts evs (w : World) :
  exists st w', sweep evs w = Ok st w' /\
    gc_runs w' = (gc_runs w + ticks_served evs)%nat.
Proof.
  revert w. induction evs as [| [|] evs IH]; intros w; cbn.
  - exists Waiting, w. split; [reflexivity | lia].
  - exists Returned, w. split; [reflexivity | lia].
  - destruct (GC_counts w) as (w1 & Hrun & Hg & _).
    destruct (IH w1) as (st & w2 & Hrun2 & Hg2).
    exists st, w2. unfold mbind, M_bind. rewrite Hrun.
    split; [exact Hrun2 | lia].
Qed.

(** C7: with an interval [d <= 0], [RunGCInterval] returns at once and
    leaves the world as it is, so [GC] has not run, in both files; with
    [0 < d] it runs [GC] once for every tick it is given before the
    context is done. *)
Theorem RunGCInterval_runs_GC_only_when_positive (d : Duration)
    (evs : list Event) (w : World) :
  (d <= 0 ->
     RunGCInterval d evs w = Ok Returned w /\
     part_000.RunGCInterval d evs w = Ok Returned w) /\
  (0 < d ->
     exists st w',
       RunGCInterval d evs w = Ok st w' /\
       part_000.RunGCInterval d evs w = Ok st w' /\
       gc_runs w' = (gc_runs w + ticks_served evs)%nat).
Proof.
  unfold RunGCInterval, part_000.RunGCInterval. split; intros Hd.
  - apply Z.leb_le in Hd. rewrite Hd. split; reflexivity.
  - apply Z.leb_gt in Hd. rewrite Hd.
    destruct (sweep_counts evs w) as (st & w' & Hrun & Hg).
    exists st, w'. split; [exact Hrun |]. split; [| exact Hg].
    rewrite <- Hrun. apply (f_equal (fun m => m w)), part_000_sweep_eq.
Qed.

(** *** Writes *)

(** On an enabled store [Set] reads the clock once and stores the item it
    builds from that reading. *)
Lemma Set_run k (v : any) opt (w : World) :
  disabled w <> 1 ->
  exists w', Set_ k v opt w = Ok tt w' /\
    disabled w' = disabled w /\ clock w' = clock w /\
    reads w' = S (reads w) /\
    store w' =
    <[k := {| tag := match opt with Some o => Tag o | None => "" end;
              data := v;
              createdAt := now w;
              expiresAt := match opt with
                           | Some o => Add (now w) (TTL o)
                           | None => 0
                           end |}]> (store w).
Proof.
  intros Hd. apply Z.eqb_neq in Hd.
  unfold Set_, isDisabled, atomic_LoadUint32, time_Now, store_Store. run_m.
  rewrite Hd. cbn. eexists. split; [reflexivity |]. cbn.
  destruct opt; auto.
Qed.

Lemma outcome_None_panics {A} (r : Res Payload A) :
  outcome r = None -> panics r.
Proof.
  destruct r as [a w | msg]; [discriminate |]. intros _. exists msg.
  reflexivity.
Qed.

(** C8, as the code has it: on an enabled store, [Set(k, v, nil)]
    followed by [Get(k)] at type [T] returns [(v, true)] when [v] is not
    nil and its dynamic type matches [T], and panics at the type assertion
    otherwise; for the nil value it panics at every [T]. *)
Theorem Set_then_Get (T : TypeArg) (k : string) (v : any) (w : World) :
  disabled w <> 1 ->
  (type_assertion T v = Some v ->
   outcome ((Set_ k v None;; Get T k) w) = Some (v, true)) /\
  (type_assertion T v = None ->
   panics ((Set_ k v None;; Get T k) w)) /\
  (forall T' : TypeArg, panics ((Set_ k nil_any None;; Get T' k) w)).
Proof.
  intros Hd.
  assert (Hgen : forall (T0 : TypeArg) (v0 : any),
            outcome ((Set_ k v0 None;; Get T0 k) w) =
            (fun x => (x, true)) <$> type_assertion T0 v0).
  { intros T0 v0.
    destruct (Set_run k v0 None w Hd) as (w1 & Hrun & Hd1 & _ & _ & Hs).
    unfold mbind, M_bind.
    rewrite Hrun, Get_outcome, Hd1, Hs, lookup_insert_eq.
    apply Z.eqb_neq in Hd. rewrite Hd. reflexivity. }
  split; [| split].
  - intros Hty. rewrite Hgen, Hty. reflexivity.
  - intros Hty. apply outcome_None_panics. rewrite Hgen, Hty. reflexivity.
  - intros T'. apply outcome_None_panics. rewrite Hgen. reflexivity.
Qed.

(** C9, as the code has it.  Take a [Set] with options whose [TTL] is
    zero, at a reading of the clock that is not the zero instant.  On a
    disabled store it stores nothing.  On an enabled store it stores an
    item whose [expiresAt] is its [createdAt] and is not zero, so the item
    is expired at every later time; wherever it is still stored, at a
    later reading of the clock [Get] returns [(zero, false)], and
    [GetStale] returns [(zero, false)] when the flag is set, the value
    when the flag is not set and the type of the value matches, and
    panics when the flag is not set and the type does not match, as for
    nil.  With nil options the item stored has no [expiresAt] and is
    expired at no time. *)
Theorem Set_zero_TTL_expires_at_once (T : TypeArg) (k : string) (v : any)
    (o : SetOptions) (w : World) :
  TTL o = 0 ->
  now w <> 0 ->
  (disabled w = 1 -> Set_ k v (Some o) w = Ok tt w) /\
  (disabled w <> 1 ->
   (exists w1 it,
      Set_ k v (Some o) w = Ok tt w1 /\ disabled w1 = disabled w /\
      store w1 !! k = Some it /\
      data it = v /\ createdAt it = now w /\
      expiresAt it = createdAt it /\ expiresAt it <> 0 /\
      (forall t, createdAt it < t -> expired_at t it = true) /\
      (forall w2 : World,
         store w2 !! k = Some it -> createdAt it < now w2 ->
         outcome (Get T k w2) = Some (zero T, false) /\
         (disabled w2 = 1 ->
          outcome (GetStale T k w2) = Some (zero T, false)) /\
         (disabled w2 <> 1 -> type_assertion T v = Some v ->
          outcome (GetStale T k w2) = Some (v, true)) /\
         (disabled w2 <> 1 -> type_assertion T v = None ->
          panics (GetStale T k w2)))) /\
   (exists w1 it,
      Set_ k v None w = Ok tt w1 /\ store w1 !! k = Some it /\
      data it = v /\ expiresAt it = 0 /\
      (forall t, expired_at t it = false) /\
      (forall w0 : World, Expired it w0 = Ok false w0))).
Proof.
  intros Httl Hnz. split.
  { intros Hd. unfold Set_, isDisabled, atomic_LoadUint32. run_m.
    rewrite Hd. reflexivity. }
  intros Hd. split.
  - destruct (Set_run k v (Some o) w Hd) as (w1 & Hrun & Hd1 & _ & _ & Hs).
    eexists w1, _. split; [exact Hrun |]. split; [exact Hd1 |].
    split; [rewrite Hs; apply lookup_insert_eq |]. cbn.
    assert (Hexp : forall t, now w < t ->
              expired_at t
                {| tag := Tag o; data := v; createdAt := now w;
                   expiresAt := Add (now w) (TTL o) |} = true).
    { intros t Ht. unfold expired_at, IsZero, After, Add. cbn.
      rewrite Httl, Z.add_0_r. apply Z.eqb_neq in Hnz. rewrite Hnz. cbn.
      apply Z.ltb_lt. exact Ht. }
    unfold Add in *. rewrite Httl, Z.add_0_r in *.
    do 3 (split; [reflexivity |]). split; [exact Hnz |].
    split; [exact Hexp |].
    intros w2 Hk2 Hlt. split; [| split; [| split]].
    + rewrite Get_outcome, Hk2, (Hexp _ Hlt).
      destruct (disabled w2 =? 1); reflexivity.
    + intros Hd2. rewrite GetStale_outcome, Hd2. reflexivity.
    + intros Hd2 Hty. apply Z.eqb_neq in Hd2.
      rewrite GetStale_outcome, Hk2, Hd2. cbn. rewrite Hty. reflexivity.
    + intros Hd2 Hty. apply Z.eqb_neq in Hd2. apply outcome_None_panics.
      rewrite GetStale_outcome, Hk2, Hd2. cbn. rewrite Hty. reflexivity.
  - destruct (Set_run k v None w Hd) as (w1 & Hrun & _ & _ & _ & Hs).
    eexists w1, _. split; [exact Hrun |].
    split; [rewrite Hs; apply lookup_insert_eq |]. cbn.
    do 2 (split; [reflexivity |]). split; intros; reflexivity.
Qed.

(** *** Removal and the switch *)

Lemma flag_blind_ret {A} (a : A) : flag_blind (mret a : M Payload A).
Proof. intros v w. reflexivity. Qed.

Lemma flag_blind_bind {A B} (m : M Payload A) (f : A -> M Payload B) :
  flag_blind m -> (forall a, flag_blind (f a)) -> flag_blind (m ≫= f).
Proof.
  intros Hm Hf v w. unfold mbind, M_bind. rewrite Hm.
  destruct (m w) as [a w1 | msg]; cbn; [apply Hf | reflexivity].
Qed.

Lemma flag_blind_time_Now : flag_blind (time_Now (Payload := Payload)).
Proof. intros v w. reflexivity. Qed.

Lemma flag_blind_store_Delete k :
  flag_blind (store_Delete (Payload := Payload) k).
Proof. intros v w. reflexivity. Qed.

Lemma flag_blind_count_gc : flag_blind (count_gc (Payload := Payload)).
Proof. intros v w. reflexivity. Qed.

Lemma flag_blind_Expired (it : item) : flag_blind (Expired it).
Proof.
  unfold Expired. destruct (IsZero (expiresAt it)).
  - apply flag_blind_ret.
  - apply flag_blind_bind; [apply flag_blind_time_Now |].
    intros t. apply flag_blind_ret.
Qed.

Lemma flag_blind_range_entries (f : string -> item -> M Payload bool) l :
  (forall k it, flag_blind (f k it)) -> flag_blind (range_entries f l).
Proof.
  intros Hf. induction l as [| [k it] l IH]; cbn [range_entries].
  - apply flag_blind_ret.
  - apply flag_blind_bind; [apply Hf |].
    intros [|]; [exact IH | apply flag_blind_ret].
Qed.

Lemma flag_blind_store_Range (f : string -> item -> M Payload bool) :
  (forall k it, flag_blind (f k it)) -> flag_blind (store_Range f).
Proof.
  intros Hf v w. unfold store_Range. cbn [with_disabled store].
  apply flag_blind_range_entries. exact Hf.
Qed.

Lemma flag_blind_delete_and_go k :
  flag_blind (store_Delete (Payload := Payload) k;; mret true).
Proof.
  apply flag_blind_bind; [apply flag_blind_store_Delete |].
  intros _. apply flag_blind_ret.
Qed.

Lemma flag_blind_DeleteTag tg : flag_blind (DeleteTag (Payload := Payload) tg).
Proof.
  apply flag_blind_bind; [apply flag_blind_time_Now |]. intros t.
  apply flag_blind_store_Range. intros k it.
  destruct (CreateAfter it t); [apply flag_blind_ret |].
  destruct (decide (tag it = tg));
    [apply flag_blind_delete_and_go | apply flag_blind_ret].
Qed.

Lemma flag_blind_Clear : flag_blind (Clear (Payload := Payload)).
Proof.
  apply flag_blind_bind; [apply flag_blind_time_Now |]. intros t.
  apply flag_blind_store_Range. intros k it.
  destruct (CreateAfter it t);
    [apply flag_blind_ret | apply flag_blind_delete_and_go].
Qed.

Lemma flag_blind_GC : flag_blind (GC (Payload := Payload)).
Proof.
  apply flag_blind_bind; [apply flag_blind_count_gc |]. intros _.
  apply flag_blind_store_Range. intros k it.
  apply flag_blind_bind; [apply flag_blind_Expired |].
  intros [|]; [apply flag_blind_delete_and_go | apply flag_blind_ret].
Qed.

Lemma flag_blind_final_store (m : M Payload unit) :
  flag_blind m ->
  forall v w, final_store (m (with_disabled v w)) = final_store (m w).
Proof.
  intros Hm v w. rewrite Hm. destruct (m w); reflexivity.
Qed.

(** C10: [Delete], [DeleteTag], [Clear] and [GC] return, leave the flag
    as it is, and end with the same mapping whatever the value of the
    flag they are run with; [Delete] removes the entry of its key on a
    disabled store too. *)
Theorem removal_ignores_flag (k tg : string) (v : Z) (w : World) :
  ((exists w', Delete k w = Ok tt w' /\ disabled w' = disabled w /\
               store w' !! k = None) /\
   final_store (Delete k (with_disabled v w)) = final_store (Delete k w)) /\
  ((exists w', DeleteTag tg w = Ok tt w' /\ disabled w' = disabled w) /\
   final_store (DeleteTag tg (with_disabled v w)) =
   final_store (DeleteTag tg w)) /\
  ((exists w', Clear w = Ok tt w' /\ disabled w' = disabled w) /\
   final_store (Clear (with_disabled v w)) = final_store (Clear w)) /\
  ((exists w', GC w = Ok tt w' /\ disabled w' = disabled w) /\
   final_store (GC (with_disabled v w)) = final_store (GC w)).
Proof.
  split; [| split; [| split]]; split.
  - eexists. split; [reflexivity |]. cbn. split; [reflexivity |].
    apply lookup_delete_eq.
  - reflexivity.
  - destruct (DeleteTag_run tg w) as (w' & Hrun & (Hd & _) & _). eauto.
  - apply flag_blind_final_store, flag_blind_DeleteTag.
  - destruct (Clear_run w) as (w' & Hrun & (Hd & _) & _). eauto.
  - apply flag_blind_final_store, flag_blind_Clear.
  - destruct (GC_counts w) as (w' & Hrun & _ & Hd). eauto.
  - apply flag_blind_final_store, flag_blind_GC.
Qed.

End Spec.

(** ** Examples *)

(** C1 in the second file: an entry tagged ["t"] and set before
    [DeleteTag("t")] is still found after it, and an entry tagged ["t"]
    created after the start of [DeleteTag("t")] is removed.  On the same
    input [DeleteTag] of cachestore.go removes the first entry. *)
Theorem part_000_DeleteTag_keeps_older_entry :
  outcome ((part_000.Set_ "a" (dyn "int" 1) (opt_t 1000);;
            part_000.DeleteTag "t";; part_000.Get "a") w_start)
  = Some (dyn "int" 1, true) /\
  final_store (part_000.DeleteTag "t" w_late) = Some ∅ /\
  outcome ((Set_ "a" (dyn "int" 1) (opt_t 1000);;
            DeleteTag "t";; Get T_int "a") w_start)
  = Some (zero T_int, false) /\
  final_store (DeleteTag "t" w_late) = Some (store w_late).
Proof. vm_compute. repeat split; reflexivity. Qed.

(** C2 fails: an entry holding a string, read at type int on an enabled
    store, makes [Get] and [GetStale] panic. *)
Lemma typed_read_panics_on_mismatch :
  store w_mismatch !! "k" = Some it_string /\
  type_assertion T_int (data it_string) = None /\
  Get T_int "k" w_mismatch = Panic "interface conversion" /\
  GetStale T_int "k" w_mismatch = Panic "interface conversion".
Proof. vm_compute. repeat split; reflexivity. Qed.

Lemma typed_read_of_mismatch_witness :
  panics (GetStale T_int "k" w_mismatch) /\
  panics (Get T_int "k" w_mismatch).
Proof.
  assert (Hk : store w_mismatch !! "k" = Some it_string)
    by (vm_compute; reflexivity).
  assert (Hty : type_assertion T_int (data it_string) = None)
    by reflexivity.
  assert (Hd : disabled w_mismatch <> 1) by discriminate.
  destruct (typed_read_of_mismatch T_int "k" it_string w_mismatch Hk Hty)
    as [_ Hen].
  destruct (Hen Hd) as (Hstale & _ & Hget).
  split; [exact Hstale | apply Hget; reflexivity].
Defined.

Lemma disabled_store_is_inert_witness :
  disabled w_disabled = 1 /\
  Set_ "k" (dyn "int" 1) None w_disabled = Ok tt w_disabled /\
  Get T_int "k" w_disabled = Ok (zero T_int, false) w_disabled /\
  GetStale T_int "k" w_disabled = Ok (zero T_int, false) w_disabled.
Proof.
  assert (Hd : disabled w_disabled = 1) by reflexivity.
  destruct (disabled_store_is_inert w_disabled) as [Hin _].
  destruct (Hin Hd) as (Hset & Hget & Hstale).
  split; [exact Hd |]. split; [apply Hset |]. split; [apply Hget |].
  apply Hstale.
Defined.

(** C4 fails: on a disabled store [GetStale] does not return the value of
    the expired entry. *)
Lemma GetStale_on_disabled_store :
  store w_disabled !! "k" = Some it_int_5 /\
  expiresAt it_int_5 <> 0 /\
  expiresAt it_int_5 < now w_disabled /\
  GetStale T_int "k" w_disabled = Ok (dyn "int" 0, false) w_disabled /\
  outcome (GetStale T_int "k" w_disabled) <> Some (data it_int_5, true).
Proof.
  split; [vm_compute; reflexivity |]. split; [discriminate |].
  split; [reflexivity |]. split; [reflexivity | discriminate].
Qed.

Lemma stale_read_after_expiry_witness :
  outcome (Get T_int "k" w_expired) = Some (zero T_int, false) /\
  outcome (GetStale T_int "k" w_expired) = Some (dyn "int" 7, true).
Proof.
  assert (Hk : store w_expired !! "k" = Some it_int_5)
    by (vm_compute; reflexivity).
  assert (Hnz : expiresAt it_int_5 <> 0) by discriminate.
  assert (Hlt : expiresAt it_int_5 < now w_expired) by reflexivity.
  assert (Hd : disabled w_expired <> 1) by discriminate.
  destruct (stale_read_after_expiry T_int "k" it_int_5 w_expired Hk)
    as [Hex _].
  destruct (Hex Hnz Hlt) as (Hget & Hstale & _).
  split; [exact Hget | apply Hstale; [exact Hd | reflexivity]].
Defined.

Lemma GC_removes_exactly_expired_witness :
  frozen 10 w_expired /\
  exists w1, GC w_expired = Ok tt w1 /\ store w1 !! "k" = None.
Proof.
  assert (Hf : frozen 10 w_expired) by (intros n _; reflexivity).
  split; [exact Hf |].
  destruct (GC_removes_exactly_expired 10 w_expired Hf)
    as (w1 & Hrun & Hlook & _).
  exists w1. split; [exact Hrun |]. rewrite Hlook. vm_compute. reflexivity.
Defined.

Lemma Clear_removes_older_witness :
  (exists w', Clear w_expired = Ok tt w' /\ store w' !! "k" = None) /\
  (exists w', Clear w_late = Ok tt w' /\ store w' !! "k" = Some it_late).
Proof.
  split.
  - destruct (Clear_removes_older w_expired) as (w' & Hrun & Hold & _).
    exists w'. split; [exact Hrun |].
    apply (Hold "k" it_int_5);
      [vm_compute; reflexivity | vm_compute; discriminate].
  - destruct (Clear_removes_older w_late) as (w' & Hrun & _ & Hnew & _).
    exists w'. split; [exact Hrun |].
    apply (Hnew "k" it_late); [vm_compute; reflexivity | reflexivity].
Defined.

Lemma RunGCInterval_runs_GC_only_when_positive_witness :
  RunGCInterval 0 [ticker_C; ticker_C; ctx_Done] w_expired
  = Ok Returned w_expired /\
  exists st w', RunGCInterval 5 [ticker_C; ticker_C; ctx_Done] w_expired
                = Ok st w' /\ gc_runs w' = 2%nat.
Proof.
  destruct (RunGCInterval_runs_GC_only_when_positive 0
              [ticker_C; ticker_C; ctx_Done] w_expired) as [Hle _].
  destruct (RunGCInterval_runs_GC_only_when_positive 5
              [ticker_C; ticker_C; ctx_Done] w_expired) as [_ Hgt].
  split; [apply Hle; lia |].
  destruct Hgt as (st & w' & Hrun & _ & Hg); [lia |].
  exists st, w'. split; [exact Hrun | exact Hg].
Defined.

Lemma Set_then_Get_witness :
  outcome ((Set_ "k" (dyn "int" 7) None;; Get T_int "k") w_start)
  = Some (dyn "int" 7, true).
Proof.
  destruct (Set_then_Get T_int "k" (dyn "int" 7) w_start) as [Hfound _];
    [discriminate |].
  apply Hfound. reflexivity.
Defined.

(** C8 fails: the nil value, set on an enabled store, makes [Get] panic,
    here at the type [any]. *)
Lemma Set_nil_then_Get_panics :
  disabled w_start <> 1 /\
  (Set_ "k" nil_any None;; Get T_any "k") w_start
  = Panic "interface conversion" /\
  outcome ((Set_ "k" nil_any None;; Get T_any "k") w_start)
  <> Some (nil_any, true).
Proof.
  split; [discriminate |]. split; [vm_compute; reflexivity |].
  vm_compute. discriminate.
Qed.

(** C9 fails: after a [Set] with a zero [TTL] on an enabled store,
    [GetStale] returns [(zero, false)] once the flag is set, and panics
    when the value set is nil. *)
Lemma GetStale_after_zero_TTL_Set :
  outcome ((Set_ "k" (dyn "int" 7) (opt_t 0);; SetDisable true;;
            GetStale T_int "k") w_start) = Some (dyn "int" 0, false) /\
  (Set_ "k" nil_any (opt_t 0);; GetStale T_any "k") w_start
  = Panic "interface conversion".
Proof. split; vm_compute; reflexivity. Qed.

Lemma Set_zero_TTL_expires_at_once_witness :
  outcome ((Set_ "k" (dyn "int" 7) (opt_t 0);; Get T_int "k") w_start)
  = Some (zero T_int, false) /\
  outcome ((Set_ "k" (dyn "int" 7) (opt_t 0);; GetStale T_int "k") w_start)
  = Some (dyn "int" 7, true).
Proof.
  destruct (Set_zero_TTL_expires_at_once T_int "k" (dyn "int" 7)
              {| Tag := "t"; TTL := 0 |} w_start) as [_ Hen];
    [reflexivity | discriminate |].
  destruct Hen as [(w1 & it & Hrun & Hd1 & Hk & _ & Hc & _ & _ & _ & Hlater) _];
    [discriminate |].
  assert (Hw1 : now w1 = 110).
  { vm_compute in Hrun. injection Hrun as <-. reflexivity. }
  destruct (Hlater w1 Hk) as (Hget & _ & Hstale & _).
  { rewrite Hc, Hw1. reflexivity. }
  unfold opt_t, mbind, M_bind. rewrite Hrun.
  split; [exact Hget |]. apply Hstale; [| reflexivity].
  rewrite Hd1. discriminate.
Defined.

(** ** Further properties of the operations *)

Section More.
Context {Payload : Type}.

#[local] Abbreviation any := (any Payload).
#[local] Abbreviation item := (item Payload).
#[local] Abbreviation World := (World Payload).
#[local] Abbreviation TypeArg := (TypeArg Payload).

Lemma Set_stores k (v : any) opt (w : World) :
  disabled w <> 1 ->
  exists w', Set_ k v opt w = Ok tt w' /\
    disabled w' = disabled w /\ clock w' = clock w /\
    reads w' = S (reads w) /\ gc_runs w' = gc_runs w /\
    store w' = <[k := new_item v opt (now w)]> (store w).
Proof.
  intros Hd. apply Z.eqb_neq in Hd.
  unfold Set_, isDisabled, atomic_LoadUint32, time_Now, store_Store. run_m.
  rewrite Hd. cbn. eexists. split; [reflexivity |]. cbn.
  destruct opt; auto 6.
Qed.

Lemma type_assertion_Some (T : TypeArg) (x y : any) :
  type_assertion T x = Some y -> y = x.
Proof.
  destruct x as [| ty p]; cbn; [discriminate |].
  destruct (accepts T ty); [| discriminate]. intros [= <-]. reflexivity.
Qed.

(** *** Writes *)

(** X1: the last [Set] wins.  After two [Set]s on the same key of an
    enabled store the key holds the item of the second, built at the
    second reading of the clock; the other keys are as before; with nil
    options for the second, [Get] returns its value. *)
Theorem Set_last_wins (T : TypeArg) (k : string) (v1 v2 : any)
    (o1 o2 : option SetOptions) (w : World) :
  disabled w <> 1 ->
  exists w2,
    (Set_ k v1 o1;; Set_ k v2 o2) w = Ok tt w2 /\
    store w2 !! k = Some (new_item v2 o2 (clock w (S (reads w)))) /\
    (forall k', k' <> k -> store w2 !! k' = store w !! k') /\
    (o2 = None -> type_assertion T v2 = Some v2 ->
     outcome (Get T k w2) = Some (v2, true)).
Proof.
  intros Hd.
  destruct (Set_stores k v1 o1 w Hd) as (w1 & Hrun1 & Hd1 & Hc1 & Hr1 & _ & Hs1).
  assert (Hd1' : disabled w1 <> 1) by congruence.
  destruct (Set_stores k v2 o2 w1 Hd1') as (w2 & Hrun2 & Hd2 & _ & _ & _ & Hs2).
  assert (Hnow : now w1 = clock w (S (reads w))).
  { unfold now. rewrite Hc1, Hr1. reflexivity. }
  exists w2. unfold mbind, M_bind. rewrite Hrun1.
  split; [exact Hrun2 |]. rewrite Hs2, Hnow, Hs1.
  split; [apply lookup_insert_eq |]. split.
  - intros k' Hne. rewrite !lookup_insert_ne by congruence. reflexivity.
  - intros -> Hty. rewrite Get_outcome, Hs2, Hs1, lookup_insert_eq, Hd2, Hd1.
    apply Z.eqb_neq in Hd. rewrite Hd. cbn. rewrite Hty. reflexivity.
Qed.

(** X2: the window of a TTL.  An item set with options on an enabled
    store, whose [expiresAt] is not the zero instant, is found by [Get] at
    every reading of the clock up to and including [createdAt + TTL] and
    is not found at any later reading; with a negative TTL it is not found
    from its creation on. *)
Theorem Set_TTL_window (T : TypeArg) (k : string) (v : any)
    (o : SetOptions) (w : World) :
  disabled w <> 1 ->
  now w + TTL o <> 0 ->
  type_assertion T v = Some v ->
  exists w1,
    Set_ k v (Some o) w = Ok tt w1 /\
    forall w2 : World,
      store w2 !! k = store w1 !! k -> disabled w2 = disabled w ->
      (now w2 <= now w + TTL o ->
       outcome (Get T k w2) = Some (v, true)) /\
      (now w + TTL o < now w2 ->
       outcome (Get T k w2) = Some (zero T, false)) /\
      (TTL o < 0 -> now w <= now w2 ->
       outcome (Get T k w2) = Some (zero T, false)).
Proof.
  intros Hd Hnz Hty.
  destruct (Set_stores k v (Some o) w Hd) as (w1 & Hrun & _ & _ & _ & _ & Hs).
  exists w1. split; [exact Hrun |]. intros w2 Hk Hd2.
  rewrite Hs, lookup_insert_eq in Hk.
  apply Z.eqb_neq in Hd. apply Z.eqb_neq in Hnz.
  rewrite Get_outcome, Hk, Hd2, Hd.
  unfold expired_at, new_item, IsZero, After, Add. cbn. rewrite Hnz. cbn.
  split; [| split].
  - intros Hle. destruct (Z.ltb_spec (now w + TTL o) (now w2)); [lia |].
    rewrite Hty. reflexivity.
  - intros Hlt. destruct (Z.ltb_spec (now w + TTL o) (now w2)); [| lia].
    reflexivity.
  - intros Hneg Hle. destruct (Z.ltb_spec (now w + TTL o) (now w2)); [| lia].
    reflexivity.
Qed.

(** *** Reads *)

(** X3: a read returns [true] only for an entry it has seen: when [Get]
    returns [(x, true)] the store is enabled and holds under the key an
    item with data [x], not expired at the reading of the clock, whose
    type matches; the same for [GetStale], expired or not. *)
Theorem found_is_stored (T : TypeArg) (k : string) (w w' : World) (x : any) :
  (Get T k w = Ok (x, true) w' ->
   disabled w <> 1 /\
   exists it, store w !! k = Some it /\ data it = x /\
              expired_at (now w) it = false /\
              type_assertion T x = Some x) /\
  (GetStale T k w = Ok (x, true) w' ->
   disabled w <> 1 /\
   exists it, store w !! k = Some it /\ data it = x /\
              type_assertion T x = Some x).
Proof.
  split; intros Hrun.
  - assert (Hout : outcome (Get T k w) = Some (x, true))
      by (rewrite Hrun; reflexivity).
    rewrite Get_outcome in Hout.
    destruct (Z.eqb_spec (disabled w) 1) as [| Hd]; [discriminate |].
    split; [exact Hd |].
    destruct (store w !! k) as [it |]; [| discriminate].
    destruct (expired_at (now w) it) eqn:He; [discriminate |].
    destruct (type_assertion T (data it)) as [y |] eqn:Hty; [| discriminate].
    injection Hout as <-. apply type_assertion_Some in Hty as Heq.
    subst y. exists it. auto.
  - assert (Hout : outcome (GetStale T k w) = Some (x, true))
      by (rewrite Hrun; reflexivity).
    rewrite GetStale_outcome in Hout.
    destruct (Z.eqb_spec (disabled w) 1) as [| Hd]; [discriminate |].
    split; [exact Hd |].
    destruct (store w !! k) as [it |]; [| discriminate].
    destruct (type_assertion T (data it)) as [y |] eqn:Hty; [| discriminate].
    injection Hout as <-. apply type_assertion_Some in Hty as Heq.
    subst y. exists it. auto.
Qed.

(** X4: the reads do not write.  [Get] leaves the mapping, the flag and
    the count of [GC] runs as they are and [GetStale] leaves the whole
    world; so a [Get] that does not find an expired entry does not remove
    it, and [GetStale] still returns it afterwards. *)
Theorem reads_do_not_write (T : TypeArg) (k : string) (w : World) :
  (forall r w', Get T k w = Ok r w' ->
     store w' = store w /\ disabled w' = disabled w) /\
  (forall r w', GetStale T k w = Ok r w' -> w' = w) /\
  (forall it, store w !! k = Some it -> disabled w <> 1 ->
     expired_at (now w) it = true ->
     type_assertion T (data it) = Some (data it) ->
     outcome (Get T k w) = Some (zero T, false) /\
     outcome ((Get T k;; GetStale T k) w) = Some (data it, true)).
Proof.
  split; [| split].
  - intros r w'. apply Get_pure.
  - intros r w'. apply GetStale_pure.
  - intros it Hk Hd He Hty.
    assert (Hout : outcome (Get T k w) = Some (zero T, false)).
    { apply Z.eqb_neq in Hd. rewrite Get_outcome, Hd, Hk, He. reflexivity. }
    split; [exact Hout |].
    destruct (Get T k w) as [r w' | msg] eqn:Hrun; [| discriminate].
    destruct (Get_pure T k w r w' Hrun) as [Hs Hd'].
    unfold mbind, M_bind. rewrite Hrun, GetStale_outcome, Hs, Hd', Hk.
    apply Z.eqb_neq in Hd. rewrite Hd. cbn. rewrite Hty. reflexivity.
Qed.

(** *** Removal *)

(** X5: after [Delete] of a key both reads return [(zero, false)] for it,
    whatever the key held and whatever the type asked for; the reads of
    every other key return what they returned before; and [Delete] of a
    key that is not in the store leaves the world as it is. *)
Theorem Delete_then_reads (T : TypeArg) (k : string) (w : World) :
  outcome ((Delete k;; Get T k) w) = Some (zero T, false) /\
  outcome ((Delete k;; GetStale T k) w) = Some (zero T, false) /\
  (forall k', k' <> k ->
     outcome ((Delete k;; Get T k') w) = outcome (Get T k' w) /\
     outcome ((Delete k;; GetStale T k') w) = outcome (GetStale T k' w)) /\
  (store w !! k = None -> Delete k w = Ok tt w).
Proof.
  unfold Delete, store_Delete, set_store, mbind, M_bind.
  rewrite !Get_outcome, !GetStale_outcome. cbn.
  rewrite lookup_delete_eq.
  split; [destruct (disabled w =? 1); reflexivity |].
  split; [destruct (disabled w =? 1); reflexivity |]. split.
  - intros k' Hne. rewrite !Get_outcome, !GetStale_outcome. cbn.
    rewrite lookup_delete_ne by congruence. split; reflexivity.
  - intros Hk. rewrite delete_id by assumption. destruct w; reflexivity.
Qed.

(** X6: [DeleteTag] after [Set].  On an enabled store, whatever the key
    held before, [DeleteTag] of the tag the item was set with removes it
    when the clock has not gone back since [Set] (a reading equal to
    [createdAt] is enough); [DeleteTag] of another tag leaves the new item
    in place, and so does any [DeleteTag] whose reading of the clock is
    before [createdAt]. *)
Theorem Set_then_DeleteTag (k : string) (v : any) (opt : option SetOptions)
    (tg : string) (w : World) :
  disabled w <> 1 ->
  exists w',
    (Set_ k v opt;; DeleteTag tg) w = Ok tt w' /\
    (tg = tag_of opt -> clock w (reads w) <= clock w (S (reads w)) ->
     store w' !! k = None) /\
    (tg <> tag_of opt -> store w' !! k = Some (new_item v opt (now w))) /\
    (clock w (S (reads w)) < clock w (reads w) ->
     store w' !! k = Some (new_item v opt (now w))).
Proof.
  intros Hd.
  destruct (Set_stores k v opt w Hd) as (w1 & Hrun1 & _ & Hc1 & Hr1 & _ & Hs1).
  destruct (DeleteTag_run tg w1) as (w' & Hrun & (_ & _ & _ & _ & Hs) & _).
  assert (Hnow : now w1 = clock w (S (reads w))).
  { unfold now. rewrite Hc1, Hr1. reflexivity. }
  assert (Htag : tag (new_item v opt (now w)) = tag_of opt)
    by (destruct opt; reflexivity).
  assert (Hlook : store w' !! k =
                  if negb (CreateAfter (new_item v opt (now w)) (now w1))
                     && bool_decide (tag (new_item v opt (now w)) = tg)
                  then None else Some (new_item v opt (now w))).
  { rewrite Hs, lookup_delete_where, Hs1, lookup_insert_eq. reflexivity. }
  exists w'. unfold mbind, M_bind. rewrite Hrun1. split; [exact Hrun |].
  rewrite Hlook, Htag, Hnow. unfold CreateAfter, After, now. cbn.
  split; [| split].
  - intros -> Hle.
    destruct (Z.ltb_spec (clock w (S (reads w))) (clock w (reads w)));
      [lia |].
    cbn. rewrite bool_decide_eq_true_2; reflexivity.
  - intros Hne. rewrite (bool_decide_eq_false_2 (tag_of opt = tg));
      [| congruence].
    rewrite andb_false_r. reflexivity.
  - intros Hlt.
    destruct (Z.ltb_spec (clock w (S (reads w))) (clock w (reads w)));
      [reflexivity | lia].
Qed.

(** X7: [Clear] empties a store none of whose entries was created after
    the reading of the clock [Clear] starts with; both reads then return
    [(zero, false)] for every key. *)
Theorem Clear_empties (w : World) :
  (forall k it, store w !! k = Some it -> createdAt it <= now w) ->
  exists w', Clear w = Ok tt w' /\ store w' = ∅ /\
    forall T k,
      outcome (Get T k w') = Some (zero T, false) /\
      outcome (GetStale T k w') = Some (zero T, false).
Proof.
  intros Hold.
  destruct (Clear_run w) as (w' & Hrun & (_ & _ & _ & _ & Hs) & _).
  assert (He : store w' = ∅).
  { apply map_empty. intros k. rewrite Hs, lookup_delete_where.
    destruct (store w !! k) as [it |] eqn:Hk; [| reflexivity].
    unfold CreateAfter, After. specialize (Hold k it Hk).
    destruct (Z.ltb_spec (now w) (createdAt it)); [lia | reflexivity]. }
  exists w'. split; [exact Hrun |]. split; [exact He |].
  intros T k. rewrite Get_outcome, GetStale_outcome, He, lookup_empty.
  destruct (disabled w' =? 1); split; reflexivity.
Qed.

(** *** Reclamation *)

(** X8: [GC] shows through [GetStale].  At a stopped clock, for a key
    holding an item, [GetStale] after [GC] returns [(zero, false)] when
    the item was expired, although it returned the value before on an
    enabled store, and returns what it returned before when the item was
    not expired. *)
Theorem GC_then_GetStale (T : TypeArg) (k : string) (it : item) (t : Time)
    (w : World) :
  frozen t w ->
  store w !! k = Some it ->
  (disabled w <> 1 -> type_assertion T (data it) = Some (data it) ->
   outcome (GetStale T k w) = Some (data it, true)) /\
  (expired_at t it = true ->
   outcome ((GC;; GetStale T k) w) = Some (zero T, false)) /\
  (expired_at t it = false ->
   outcome ((GC;; GetStale T k) w) = outcome (GetStale T k w)).
Proof.
  intros Hf Hk.
  destruct (GC_run t w Hf) as (w1 & Hrun & _ & Hd & _ & _ & Hs).
  assert (Hlook : store w1 !! k = if expired_at t it then None else Some it).
  { rewrite Hs, lookup_delete_where, Hk. reflexivity. }
  unfold mbind, M_bind. rewrite Hrun, !GetStale_outcome, Hd, Hlook, Hk.
  split; [| split].
  - intros Hen Hty. apply Z.eqb_neq in Hen. rewrite Hen. cbn.
    rewrite Hty. reflexivity.
  - intros ->. destruct (disabled w =? 1); reflexivity.
  - intros ->. reflexivity.
Qed.

(** The range of [GC] on a moving clock: an entry is as before or gone,
    and a gone entry was expired at a reading taken during the range. *)
Lemma GC_range_any_clock (l : list (string * item)) (w : World) :
  exists w',
    range_entries
      (fun key (it : item) =>
         e ← Expired it;
         if e : bool then store_Delete key;; mret true else mret true)
      l w = Ok tt w' /\
    clock w' = clock w /\ (reads w <= reads w')%nat /\
    forall k,
      store w' !! k = store w !! k \/
      (store w' !! k = None /\
       exists it' n, (k, it') ∈ l /\ (reads w <= n)%nat /\
                     expired_at (clock w n) it' = true).
Proof.
  revert w. induction l as [| [k0 it0] l IH]; intros w.
  - exists w. cbn. split; [reflexivity |]. split; [reflexivity |].
    split; [lia |]. intros k. left. reflexivity.
  - cbn [range_entries].
    destruct (Expired_run it0 w) as (w1 & Hrun1 & _ & Hc1 & _ & Hr1 & Hs1).
    unfold mbind at 1, M_bind at 1. unfold mbind at 1, M_bind at 1.
    rewrite Hrun1.
    destruct (expired_at (now w) it0) eqn:He.
    + destruct (store_Delete_run k0 w1)
        as (w2 & Hrun2 & _ & Hc2 & _ & Hr2 & Hs2).
      unfold mbind at 1, M_bind at 1. rewrite Hrun2. cbn [mret M_ret].
      destruct (IH w2) as (w' & Hrun & Hc & Hr & Hall).
      exists w'. split; [exact Hrun |].
      split; [congruence |]. split; [lia |].
      intros k. destruct (decide (k = k0)) as [-> | Hne].
      * right. destruct (Hall k0) as [Heq | [Hnone _]].
        -- split; [rewrite Heq, Hs2; apply lookup_delete_eq |].
           exists it0, (reads w). split; [left |]. split; [lia | exact He].
        -- split; [exact Hnone |].
           exists it0, (reads w). split; [left |]. split; [lia | exact He].
      * destruct (Hall k) as [Heq | (Hnone & it' & n & Hin & Hn & Hex)].
        -- left. rewrite Heq, Hs2, lookup_delete_ne by congruence.
           rewrite Hs1. reflexivity.
        -- right. split; [exact Hnone |]. exists it', n.
           split; [right; exact Hin |]. split; [lia |].
           rewrite <- Hc1, <- Hc2. exact Hex.
    + cbn [mret M_ret].
      destruct (IH w1) as (w' & Hrun & Hc & Hr & Hall).
      exists w'. split; [exact Hrun |].
      split; [congruence |]. split; [lia |].
      intros k. destruct (Hall k) as [Heq | (Hnone & it' & n & Hin & Hn & Hex)].
      * left. rewrite Heq, Hs1. reflexivity.
      * right. split; [exact Hnone |]. exists it', n.
        split; [right; exact Hin |]. split; [lia |].
        rewrite <- Hc1. exact Hex.
Qed.

(** X9: whatever the clock does, [GC] adds and alters nothing, and it
    removes an entry only if the entry has an [expiresAt], which a
    reading of the clock taken during the call is after.  So an entry
    without [expiresAt] survives every [GC], and so does an entry whose
    [expiresAt] no later reading of the clock is after. *)
Theorem GC_removes_only_expired (w : World) :
  exists w', GC w = Ok tt w' /\
    (forall k,
       store w' !! k = store w !! k \/
       (store w' !! k = None /\
        exists it n, store w !! k = Some it /\ (reads w <= n)%nat /\
                     expiresAt it <> 0 /\ expiresAt it < clock w n)) /\
    (forall k it, store w !! k = Some it -> expiresAt it = 0 ->
       store w' !! k = Some it) /\
    (forall k it, store w !! k = Some it ->
       (forall n, (reads w <= n)%nat -> clock w n <= expiresAt it) ->
       store w' !! k = Some it).
Proof.
  unfold GC, mbind at 1, M_bind at 1, store_Range. cbn [count_gc].
  set (w0 := {| disabled := disabled w; store := store w; clock := clock w;
                reads := reads w; gc_runs := S (gc_runs w) |}).
  destruct (GC_range_any_clock (map_to_list (store w0)) w0)
    as (w' & Hrun & _ & _ & Hall).
  assert (Hchar : forall k,
            store w' !! k = store w !! k \/
            (store w' !! k = None /\
             exists it n, store w !! k = Some it /\ (reads w <= n)%nat /\
                          expiresAt it <> 0 /\ expiresAt it < clock w n)).
  { intros k. destruct (Hall k) as [Heq | (Hnone & it & n & Hin & Hn & Hex)].
    - left. exact Heq.
    - right. split; [exact Hnone |]. exists it, n.
      apply elem_of_map_to_list in Hin. split; [exact Hin |].
      split; [exact Hn |]. unfold expired_at, IsZero, After in Hex.
      cbn [clock w0] in Hex.
      apply andb_true_iff in Hex as [Hz Hlt].
      apply negb_true_iff, Z.eqb_neq in Hz. apply Z.ltb_lt in Hlt. auto. }
  exists w'. split; [exact Hrun |]. split; [exact Hchar |]. split.
  - intros k it Hk Hz.
    destruct (Hchar k) as [Heq | (_ & it' & n & Hk' & _ & Hnz & _)].
    + congruence.
    + congruence.
  - intros k it Hk Hfut.
    destruct (Hchar k) as [Heq | (_ & it' & n & Hk' & Hn & _ & Hlt)].
    + congruence.
    + assert (it' = it) by congruence. subst it'.
      specialize (Hfut n Hn). lia.
Qed.

(** *** The sweep *)

(** X10: with a positive interval [RunGCInterval] returns exactly when
    the context is done: as long as only ticks arrive it keeps waiting.
    It leaves the flag as it is. *)
Theorem RunGCInterval_returns_when_done (d : Duration) (evs : list Event)
    (w : World) :
  0 < d ->
  exists st w',
    RunGCInterval d evs w = Ok st w' /\
    (st = Returned <-> ctx_Done ∈ evs) /\
    disabled w' = disabled w.
Proof.
  intros Hd. unfold RunGCInterval. apply Z.leb_gt in Hd. rewrite Hd.
  clear Hd. revert w. induction evs as [| [|] evs IH]; intros w; cbn.
  - exists Waiting, w. split; [reflexivity |]. split; [| reflexivity].
    split; [discriminate |]. intros Hin. inversion Hin.
  - exists Returned, w. split; [reflexivity |]. split; [| reflexivity].
    split; [intros _; left | reflexivity].
  - destruct (GC_counts w) as (w1 & Hrun & _ & Hd1).
    destruct (IH w1) as (st & w' & Hrun' & Hiff & Hd').
    exists st, w'. unfold mbind, M_bind. rewrite Hrun.
    split; [exact Hrun' |]. split; [| congruence].
    rewrite Hiff. split.
    + intros Hin. right. exact Hin.
    + intros Hin. apply elem_of_cons in Hin as [Heq | Hin];
        [discriminate | exact Hin].
Qed.

Lemma sweep_frozen t evs (w : World) :
  frozen t w ->
  exists st w', sweep evs w = Ok st w' /\
    forall k,
      store w' !! k =
      match store w !! k with
      | Some it =>
          if negb (ticks_served evs =? 0)%nat && expired_at t it
          then None else Some it
      | None => None
      end.
Proof.
  revert w. induction evs as [| [|] evs IH]; intros w Hf; cbn.
  - exists Waiting, w. split; [reflexivity |]. intros k.
    destruct (store w !! k); reflexivity.
  - exists Returned, w. split; [reflexivity |]. intros k.
    destruct (store w !! k); reflexivity.
  - destruct (GC_run t w Hf) as (w1 & Hrun & Hf1 & _ & _ & _ & Hs).
    destruct (IH w1 Hf1) as (st & w' & Hrun' & Hlook).
    exists st, w'. unfold mbind, M_bind. rewrite Hrun.
    split; [exact Hrun' |]. intros k.
    rewrite Hlook, Hs, lookup_delete_where.
    destruct (store w !! k) as [it |]; [| reflexivity].
    destruct (expired_at t it) eqn:He; [reflexivity |].
    rewrite He, andb_false_r. reflexivity.
Qed.

(** X11: at a stopped clock, a sweep that has served at least one tick
    leaves the mapping one [GC] leaves, however many ticks it served, and
    a sweep that has served none leaves the mapping as it was. *)
Theorem RunGCInterval_sweeps (d : Duration) (evs : list Event) (t : Time)
    (w : World) :
  0 < d ->
  frozen t w ->
  exists st w' w1,
    RunGCInterval d evs w = Ok st w' /\ GC w = Ok tt w1 /\
    (ticks_served evs = 0%nat -> store w' = store w) /\
    (ticks_served evs <> 0%nat -> store w' = store w1).
Proof.
  intros Hd Hf. unfold RunGCInterval. apply Z.leb_gt in Hd. rewrite Hd.
  destruct (sweep_frozen t evs w Hf) as (st & w' & Hrun & Hlook).
  destruct (GC_run t w Hf) as (w1 & Hgc & _ & _ & _ & _ & Hs).
  exists st, w', w1. split; [exact Hrun |]. split; [exact Hgc |]. split.
  - intros Hz. apply map_eq. intros k. rewrite Hlook, Hz. cbn.
    destruct (store w !! k); reflexivity.
  - intros Hnz. apply map_eq. intros k.
    rewrite Hlook, Hs, lookup_delete_where.
    apply Nat.eqb_neq in Hnz. rewrite Hnz. reflexivity.
Qed.

(** *** The switch *)

(** X12: disabling hides the entries and does not drop them.  An item set
    on an enabled store is not found while the flag is set and is found
    again, with its value, once the flag is cleared; and [isDisabled]
    returns the last value given to [SetDisable]. *)
Theorem entries_survive_disabling (T : TypeArg) (k : string) (v : any)
    (w : World) :
  disabled w <> 1 ->
  type_assertion T v = Some v ->
  outcome ((Set_ k v None;; SetDisable true;; Get T k) w)
  = Some (zero T, false) /\
  outcome ((Set_ k v None;; SetDisable true;; GetStale T k) w)
  = Some (zero T, false) /\
  outcome ((Set_ k v None;; SetDisable true;; SetDisable false;; Get T k) w)
  = Some (v, true) /\
  (forall b, outcome ((SetDisable b;; isDisabled) w) = Some b).
Proof.
  intros Hd Hty.
  destruct (Set_stores k v None w Hd) as (w1 & Hrun & _ & _ & _ & _ & Hs).
  unfold mbind, M_bind. rewrite Hrun.
  unfold SetDisable, atomic_StoreUint32.
  rewrite !Get_outcome, GetStale_outcome. cbn. rewrite Hs, lookup_insert_eq.
  cbn. rewrite Hty.
  split; [reflexivity |]. split; [reflexivity |]. split; [reflexivity |].
  intros [|]; reflexivity.
Qed.

(** *** The second file *)

(** X13: in the second file [Set] followed by [Get] returns the value
    set, whatever the value, nil included, when the item is not expired
    at the reading of the clock [Get] takes, and [(nil, false)] when it
    is; with nil options it is always the value.  After [Delete] the key
    is not found. *)
Theorem part_000_Set_then_Get (k : string) (v : any)
    (opt : option SetOptions) (w : World) :
  outcome ((part_000.Set_ k v opt;; part_000.Get k) w)
  = Some (if expired_at (clock w (S (reads w))) (new_item v opt (now w))
          then (nil_any, false) else (v, true)) /\
  outcome ((part_000.Set_ k v None;; part_000.Get k) w) = Some (v, true) /\
  outcome ((part_000.Set_ k v opt;; part_000.Delete k;; part_000.Get k) w)
  = Some (nil_any, false).
Proof.
  unfold part_000.Set_, part_000.Get, part_000.Delete, part_000.Expired,
    time_Now, store_Store, store_Load, store_Delete, expired_at, now.
  run_m. rewrite !lookup_insert_eq, lookup_delete_eq.
  split; [| split; reflexivity].
  destruct opt as [o |]; cbn; [| reflexivity].
  destruct (IsZero (Add (clock w (reads w)) (TTL o))); cbn; [reflexivity |].
  destruct (After (clock w (S (reads w))) (Add (clock w (reads w)) (TTL o)));
    reflexivity.
Qed.

End More.

(** ** Examples of the further properties *)

Lemma Set_last_wins_witness :
  exists w2,
    (Set_ "k" (dyn "int" 1) None;; Set_ "k" (dyn "int" 2) None) w_start
    = Ok tt w2 /\
    outcome (Get T_int "k" w2) = Some (dyn "int" 2, true).
Proof.
  destruct (Set_last_wins T_int "k" (dyn "int" 1) (dyn "int" 2) None None
              w_start) as (w2 & Hrun & _ & _ & Hget); [discriminate |].
  exists w2. split; [exact Hrun | apply Hget; reflexivity].
Defined.

Lemma Set_TTL_window_witness :
  exists w1,
    Set_ "k" (dyn "int" 7) (opt_t 15) w_start = Ok tt w1 /\
    outcome (Get T_int "k" w1) = Some (dyn "int" 7, true).
Proof.
  destruct (Set_TTL_window T_int "k" (dyn "int" 7)
              {| Tag := "t"; TTL := 15 |} w_start)
    as (w1 & Hrun & Hwin); [discriminate | discriminate | reflexivity |].
  exists w1. split; [exact Hrun |].
  assert (Hw1 : disabled w1 = disabled w_start /\ now w1 = 110).
  { vm_compute in Hrun. injection Hrun as <-. split; reflexivity. }
  destruct Hw1 as [Hd1 Hn1].
  destruct (Hwin w1 eq_refl Hd1) as [Hin _]. apply Hin.
  rewrite Hn1. vm_compute. discriminate.
Defined.

Lemma found_is_stored_witness :
  Get T_int "k" w_late = Ok (dyn "int" 9, true) w_late /\
  exists it, store w_late !! "k" = Some it /\ data it = dyn "int" 9.
Proof.
  assert (Hrun : Get T_int "k" w_late = Ok (dyn "int" 9, true) w_late)
    by (vm_compute; reflexivity).
  split; [exact Hrun |].
  destruct (found_is_stored T_int "k" w_late w_late (dyn "int" 9))
    as [Hget _].
  destruct (Hget Hrun) as (_ & it & Hk & Hdata & _).
  exists it. split; assumption.
Defined.

Lemma reads_do_not_write_witness :
  outcome (Get T_int "k" w_expired) = Some (zero T_int, false) /\
  outcome ((Get T_int "k";; GetStale T_int "k") w_expired)
  = Some (dyn "int" 7, true).
Proof.
  destruct (reads_do_not_write T_int "k" w_expired) as (_ & _ & Hkeep).
  apply (Hkeep it_int_5);
    [vm_compute; reflexivity | discriminate | reflexivity | reflexivity].
Defined.

Lemma Delete_then_reads_witness :
  store w_start !! "k" = None /\ Delete "k" w_start = Ok tt w_start.
Proof.
  assert (Hk : store w_start !! "k" = None) by (vm_compute; reflexivity).
  split; [exact Hk |].
  destruct (Delete_then_reads T_int "k" w_start) as (_ & _ & _ & Hnoop).
  apply Hnoop. exact Hk.
Defined.

Lemma Set_then_DeleteTag_witness :
  exists w',
    (Set_ "k" (dyn "int" 7) (opt_t 0);; DeleteTag "t") w_start = Ok tt w' /\
    store w' !! "k" = None.
Proof.
  destruct (Set_then_DeleteTag "k" (dyn "int" 7) (opt_t 0) "t" w_start)
    as (w' & Hrun & Hdel & _); [discriminate |].
  exists w'. split; [exact Hrun |].
  apply Hdel; [reflexivity | vm_compute; discriminate].
Defined.

Lemma Clear_empties_witness :
  exists w', Clear w_expired = Ok tt w' /\ store w' = ∅.
Proof.
  destruct (Clear_empties w_expired) as (w' & Hrun & He & _).
  { intros k it Hk. unfold w_expired, w_one in Hk. cbn [store] in Hk.
    apply lookup_singleton_Some in Hk as [_ <-].
    vm_compute. discriminate. }
  exists w'. split; assumption.
Defined.

Lemma GC_then_GetStale_witness :
  outcome (GetStale T_int "k" w_expired) = Some (dyn "int" 7, true) /\
  outcome ((GC;; GetStale T_int "k") w_expired) = Some (zero T_int, false).
Proof.
  destruct (GC_then_GetStale T_int "k" it_int_5 10 w_expired)
    as (Hbefore & Hafter & _);
    [intros n _; reflexivity | vm_compute; reflexivity |].
  split; [apply Hbefore; [discriminate | reflexivity] |].
  apply Hafter. reflexivity.
Defined.

Lemma GC_removes_only_expired_witness :
  exists w', GC w_late = Ok tt w' /\ store w' !! "k" = Some it_late.
Proof.
  destruct (GC_removes_only_expired w_late) as (w' & Hrun & _ & Hkeep & _).
  exists w'. split; [exact Hrun |].
  apply Hkeep; [vm_compute; reflexivity | reflexivity].
Defined.

Lemma RunGCInterval_returns_when_done_witness :
  exists w', RunGCInterval 5 [ticker_C; ctx_Done] w_expired = Ok Returned w'.
Proof.
  destruct (RunGCInterval_returns_when_done 5 [ticker_C; ctx_Done] w_expired)
    as (st & w' & Hrun & Hiff & _); [lia |].
  exists w'. rewrite Hrun. f_equal. apply Hiff. right. left.
Defined.

Lemma RunGCInterval_sweeps_witness :
  exists st w' w1,
    RunGCInterval 5 [ticker_C; ticker_C] w_expired = Ok st w' /\
    GC w_expired = Ok tt w1 /\ store w' = store w1.
Proof.
  destruct (RunGCInterval_sweeps 5 [ticker_C; ticker_C] 10 w_expired)
    as (st & w' & w1 & Hrun & Hgc & _ & Hsame);
    [lia | intros n _; reflexivity |].
  exists st, w', w1. split; [exact Hrun |]. split; [exact Hgc |].
  apply Hsame. discriminate.
Defined.

Lemma entries_survive_disabling_witness :
  outcome ((Set_ "k" (dyn "int" 7) None;; SetDisable true;; Get T_int "k")
             w_start) = Some (zero T_int, false) /\
  outcome ((Set_ "k" (dyn "int" 7) None;; SetDisable true;;
            SetDisable false;; Get T_int "k") w_start)
  = Some (dyn "int" 7, true).
Proof.
  destruct (entries_survive_disabling T_int "k" (dyn "int" 7) w_start)
    as (Hhid & _ & Hback & _); [discriminate | reflexivity |].
  split; assumption.
Defined.

(** ** [Clear] among other goroutines *)

Section Race.
Context {Payload : Type}.

#[local] Abbreviation item := (item Payload).
#[local] Abbreviation World := (World Payload).

(** When no other goroutine runs, the range that loads at each key is the
    range over the entries the map had at the start, for a callback that
    deletes at most the entry it visits. *)
Lemma range_keys_idle (p : item -> bool) (f : string -> item -> M Payload bool) :
  deletes_when (fun _ : World => True) p f ->
  forall (l : list (string * item)) (w : World),
    NoDup l.*1 ->
    (forall k it, (k, it) ∈ l -> store w !! k = Some it) ->
    range_keys_amid (mret tt) f l.*1 w = range_entries f l w.
Proof.
  intros Hf l. induction l as [| [k it] l IH]; intros w Hnd Hin;
    [reflexivity |].
  cbn [fmap list_fmap fst range_keys_amid range_entries].
  apply NoDup_cons in Hnd as [Hk Hnd].
  unfold mbind at 1, M_bind at 1, store_Load.
  rewrite (Hin k it) by left.
  destruct (Hf k it w I) as (w1 & Hrun & _ & _ & _ & _ & _ & Hs).
  unfold mbind, M_bind, mret at 1, M_ret at 1. rewrite Hrun.
  apply IH; [exact Hnd |].
  intros k' it' Hin'.
  assert (Hne : k <> k').
  { intros ->. apply Hk. apply list_elem_of_fmap. exists (k', it'). auto. }
  rewrite Hs. destruct (p it).
  - rewrite lookup_delete_ne by exact Hne. apply Hin. right. exact Hin'.
  - apply Hin. right. exact Hin'.
Qed.

(** With an idle environment [Clear_amid] is [Clear]. *)
Lemma Clear_amid_idle (w : World) : Clear_amid (mret tt) w = Clear w.
Proof.
  unfold Clear_amid, Clear, mbind at 1 3, M_bind at 1 3.
  destruct (time_Now_run w) as (w1 & -> & _).
  unfold store_Range_amid, store_Range.
  apply (range_keys_idle (fun it => negb (CreateAfter it (now w)))).
  - intros k it w0 _. destruct (CreateAfter it (now w)); cbn.
    + exists w0. run_m. split; [reflexivity |]. split; [exact I |].
      apply moved_refl.
    + eexists. run_m. split; [reflexivity |]. split; [exact I |].
      unfold moved; cbn. auto.
  - apply NoDup_fst_map_to_list.
  - intros k it Hin. apply elem_of_map_to_list. exact Hin.
Qed.

End Race.

(** C6 in cachestore.go: [Clear] starts at 100 and loads the entry of
    ["k"], created at 50; another goroutine then sets ["k"], which stores
    an item created at 110, after the start of [Clear]; the callback,
    which tested the entry created at 50, deletes the key, and the item
    created at 110 is gone.  With no other goroutine the same [Clear]
    removes the entry created at 50, and a [Set] after it is kept. *)
Theorem Clear_amid_deletes_newer_item :
  now w_old = 100 /\
  final_store ((time_Now;; Set_ "k" (dyn "int" 2) None) w_old)
  = Some {[ "k" := new_item (dyn "int" 2) None 110 ]} /\
  final_store (Clear_amid (Set_ "k" (dyn "int" 2) None) w_old) = Some ∅ /\
  final_store (Clear_amid (mret tt) w_old) = final_store (Clear w_old) /\
  final_store ((Clear;; Set_ "k" (dyn "int" 2) None) w_old)
  = Some {[ "k" := new_item (dyn "int" 2) None 110 ]}.
Proof.
  split; [reflexivity |]. split; [vm_compute; reflexivity |].
  split; [vm_compute; reflexivity |]. split; [vm_compute; reflexivity |].
  vm_compute. reflexivity.
Qed.
